(** * Peloton: the transaction context

    A shallow embedding of [src/concurrency/transaction_context.cpp]:
    identifier initialisation ([Init] and the two constructors), the
    per-slot read/write state machine ([GetRWType], [RecordRead],
    [RecordReadOwn], [RecordUpdate], [RecordInsert], [RecordDelete]) and
    the on-commit trigger registry ([AddOnCommitTrigger],
    [ExecOnCommitTriggers]).

    The member functions mutate [this]; here they are state transformers
    on a record of the members.  The five [Record*] functions may hit
    [PL_ASSERT(false && "Bad RWType")], so they live in a small
    state-and-abort monad whose failing outcome keeps the members as
    they were when the assertion fired. *)

From Stdlib Require Import ZArith List Lia.
From stdpp Require Import gmap strings list fin_maps.

Local Open Scope Z_scope.

(** ** Data model *)

Module Types.

(** [oid_t] is a 32-bit unsigned integer, [cid_t], [eid_t] and [size_t]
    are 64-bit unsigned integers; all are carried as [Z]. *)
Definition oid_t : Type := Z.
Definition cid_t : Type := Z.
Definition eid_t : Type := Z.
Definition txn_id_t : Type := Z.

(** Modelled from the spec: the constant [INVALID_CID] (its header is
    absent); the spec gives [INVALID_CID = 0]. *)
Definition INVALID_CID : cid_t := 0.

(** [ItemPointer]: a [(block, offset)] pair, compared structurally by
    the key comparator of the read/write set. *)
Record ItemPointer : Type := mkItemPointer { block : oid_t; offset : oid_t }.

#[global] Instance ItemPointer_eq_dec : EqDecision ItemPointer.
Proof. solve_decision. Defined.

#[global] Instance ItemPointer_countable : Countable ItemPointer.
Proof.
  apply (inj_countable' (fun p => (block p, offset p))
                        (fun bo => mkItemPointer bo.1 bo.2)).
  by intros [].
Defined.

(** [RWType]: the seven enumerators the switches of the source range over. *)
Inductive RWType : Type :=
| INVALID | READ | READ_OWN | UPDATE | INSERT | DELETE | INS_DEL.

#[global] Instance RWType_eq_dec : EqDecision RWType.
Proof. solve_decision. Defined.

(** Modelled from the spec: [IsolationLevelType] (its header is absent);
    the spec lists four levels. *)
Inductive IsolationLevelType : Type :=
| SERIALIZABLE | SNAPSHOT | REPEATABLE_READS | READ_COMMITTED.

(** Modelled from the spec: [trigger::TriggerData] (trigger/trigger.h is
    absent), an opaque payload; a trigger is identified by a number. *)
Definition TriggerData : Type := N.

(** [trigger::TriggerSet] supports [push_back]: a sequence. *)
Definition TriggerSet : Type := list TriggerData.

(** Modelled from the spec: [GCSet] and [GCObjectSet] (declared in an
    absent header): a map from block to a map from offset to a version
    type, and a sequence of (database, table, index) triples.  The
    version type is carried as the enumerator's integer. *)
Definition GCVersionType : Type := Z.
Definition GCSet : Type := gmap oid_t (gmap oid_t GCVersionType).
Definition GCObjectSet : Type := list (oid_t * oid_t * oid_t).

(** The members of [TransactionContext] that the source file assigns.
    Smart pointers are [option]s: [None] is the null pointer. *)
Record TransactionContext : Type := mkTransactionContext {
  read_id_ : cid_t;
  commit_id_ : cid_t;
  txn_id_ : txn_id_t;
  epoch_id_ : eid_t;
  thread_id_ : Z;
  isolation_level_ : IsolationLevelType;
  is_written_ : bool;
  insert_count_ : Z;
  gc_set_ : option GCSet;
  gc_object_set_ : option GCObjectSet;
  on_commit_triggers_ : option TriggerSet;
  rw_set_ : gmap ItemPointer RWType
}.

End Types.
Export Types.

(** ** Member assignment *)

Module Assign.

Definition set_is_written (b : bool) (c : TransactionContext) : TransactionContext :=
  mkTransactionContext (read_id_ c) (commit_id_ c) (txn_id_ c) (epoch_id_ c)
    (thread_id_ c) (isolation_level_ c) b (insert_count_ c)
    (gc_set_ c) (gc_object_set_ c) (on_commit_triggers_ c) (rw_set_ c).

Definition set_insert_count (n : Z) (c : TransactionContext) : TransactionContext :=
  mkTransactionContext (read_id_ c) (commit_id_ c) (txn_id_ c) (epoch_id_ c)
    (thread_id_ c) (isolation_level_ c) (is_written_ c) n
    (gc_set_ c) (gc_object_set_ c) (on_commit_triggers_ c) (rw_set_ c).

Definition set_on_commit_triggers (t : option TriggerSet) (c : TransactionContext)
  : TransactionContext :=
  mkTransactionContext (read_id_ c) (commit_id_ c) (txn_id_ c) (epoch_id_ c)
    (thread_id_ c) (isolation_level_ c) (is_written_ c) (insert_count_ c)
    (gc_set_ c) (gc_object_set_ c) t (rw_set_ c).

(** [rw_set_[location] = mode;] *)
Definition set_rw (location : ItemPointer) (mode : RWType) (c : TransactionContext)
  : TransactionContext :=
  mkTransactionContext (read_id_ c) (commit_id_ c) (txn_id_ c) (epoch_id_ c)
    (thread_id_ c) (isolation_level_ c) (is_written_ c) (insert_count_ c)
    (gc_set_ c) (gc_object_set_ c) (on_commit_triggers_ c)
    (<[location := mode]> (rw_set_ c)).

End Assign.
Export Assign.

(** ** Machine arithmetic *)

Module Arith.

(** Modelled from the spec: the declared type of [insert_count_] (its
    header is absent); the spec gives a signed 64-bit counter.  [++] and
    [--] are taken modulo 2^64 in two's complement. *)
Definition INT64_MAX : Z := 2 ^ 63 - 1.
Definition wrap_i64 (z : Z) : Z := (z + 2 ^ 63) mod 2 ^ 64 - 2 ^ 63.

(** [x >> 32] on a 64-bit unsigned value. *)
Definition shr32 (x : Z) : Z := Z.shiftr x 32.

End Arith.
Export Arith.

(** ** The state-and-abort monad of the [Record*] functions *)

Module Exec.

Inductive outcome (A : Type) : Type :=
| Done (a : A) (c : TransactionContext)
| Fatal (msg : string) (c : TransactionContext).
Arguments Done {A} a c.
Arguments Fatal {A} msg c.

Definition M (A : Type) : Type := TransactionContext -> outcome A.

Definition ret {A} (a : A) : M A := fun c => Done a c.

Definition bind {A B} (m : M A) (k : A -> M B) : M B :=
  fun c => match m c with
           | Done a c' => k a c'
           | Fatal msg c' => Fatal msg c'
           end.

(** Read the members, or overwrite them. *)
Definition gets {A} (f : TransactionContext -> A) : M A := fun c => Done (f c) c.
Definition modify (f : TransactionContext -> TransactionContext) : M unit :=
  fun c => Done tt (f c).

(** Modelled from the spec: the macro [PL_ASSERT] (common/macros.h is
    absent); the spec calls a failed one a fatal assertion: the call
    does not complete and nothing after it runs. *)
Definition PL_ASSERT (cond : bool) (msg : string) : M unit :=
  fun c => if cond then Done tt c else Fatal msg c.

(** The members left behind by an outcome, completed or not. *)
Definition members {A} (o : outcome A) : TransactionContext :=
  match o with Done _ c => c | Fatal _ c => c end.

End Exec.
Export Exec.

Declare Scope txn_scope.
Delimit Scope txn_scope with txn.
Notation "'let*' x ':=' m 'in' k" := (bind m (fun x => k))
  (at level 10, x name, m at level 100, k at level 200) : txn_scope.
Local Open Scope txn_scope.

(** ** The member functions *)

Module Txn.

(** [TransactionContext::Init], the four-argument definition. *)
Definition Init (thread_id : Z) (isolation : IsolationLevelType)
    (read_id commit_id : cid_t) (c : TransactionContext) : TransactionContext :=
  {| read_id_ := read_id;
     commit_id_ := commit_id;
     txn_id_ := commit_id;
     epoch_id_ := shr32 read_id;
     thread_id_ := thread_id;
     isolation_level_ := isolation;
     is_written_ := false;
     insert_count_ := 0;
     gc_set_ := Some ∅;
     gc_object_set_ := Some [];
     on_commit_triggers_ := None;
     rw_set_ := rw_set_ c |}.

(** Modelled from the spec: the three-argument form of [Init] (declared
    in the absent transaction_context.h); the spec gives the commit id
    the default [INVALID_CID]. *)
Definition Init3 (thread_id : Z) (isolation : IsolationLevelType)
    (read_id : cid_t) (c : TransactionContext) : TransactionContext :=
  Init thread_id isolation read_id INVALID_CID c.

(** The members before a constructor body runs: containers are
    default-constructed (empty map, null pointers); the scalars are
    indeterminate and [Init] overwrites every one of them. *)
Definition default_members : TransactionContext :=
  {| read_id_ := 0; commit_id_ := 0; txn_id_ := 0; epoch_id_ := 0;
     thread_id_ := 0; isolation_level_ := SERIALIZABLE;
     is_written_ := false; insert_count_ := 0;
     gc_set_ := None; gc_object_set_ := None;
     on_commit_triggers_ := None; rw_set_ := ∅ |}.

(** The two constructors. *)
Definition new3 (thread_id : Z) (isolation : IsolationLevelType)
    (read_id : cid_t) : TransactionContext :=
  Init3 thread_id isolation read_id default_members.

Definition new4 (thread_id : Z) (isolation : IsolationLevelType)
    (read_id commit_id : cid_t) : TransactionContext :=
  Init thread_id isolation read_id commit_id default_members.

(** [TransactionContext::GetRWType] *)
Definition GetRWType (location : ItemPointer) (c : TransactionContext) : RWType :=
  match rw_set_ c !! location with
  | None => INVALID
  | Some mode => mode
  end.

(** [TransactionContext::RecordRead] *)
Definition RecordRead (location : ItemPointer) : M unit :=
  let* mode := gets (GetRWType location) in
  match mode with
  | INVALID => modify (set_rw location READ)
  | READ | READ_OWN | UPDATE | INSERT => ret tt
  | DELETE | INS_DEL => PL_ASSERT false "Bad RWType"
  end.

(** [TransactionContext::RecordReadOwn] *)
Definition RecordReadOwn (location : ItemPointer) : M unit :=
  let* mode := gets (GetRWType location) in
  match mode with
  | INVALID | READ => modify (set_rw location READ_OWN)
  | READ_OWN | UPDATE | INSERT => ret tt
  | DELETE | INS_DEL => PL_ASSERT false "Bad RWType"
  end.

(** [TransactionContext::RecordUpdate] *)
Definition RecordUpdate (location : ItemPointer) : M unit :=
  let* mode := gets (GetRWType location) in
  match mode with
  | INVALID => modify (set_rw location UPDATE)
  | READ | READ_OWN =>
      let* _ := modify (set_rw location UPDATE) in
      modify (set_is_written true)
  | UPDATE | INSERT => ret tt
  | DELETE | INS_DEL => PL_ASSERT false "Bad RWType"
  end.

(** [TransactionContext::RecordInsert] *)
Definition RecordInsert (location : ItemPointer) : M unit :=
  let* mode := gets (GetRWType location) in
  match mode with
  | INVALID =>
      let* _ := modify (set_rw location INSERT) in
      modify (fun c => set_insert_count (wrap_i64 (insert_count_ c + 1)) c)
  | _ => PL_ASSERT false "Bad RWType"
  end.

(** [TransactionContext::RecordDelete] *)
Definition RecordDelete (location : ItemPointer) : M bool :=
  let* mode := gets (GetRWType location) in
  match mode with
  | INVALID =>
      let* _ := modify (set_rw location DELETE) in
      ret false
  | READ | READ_OWN =>
      let* _ := modify (set_rw location DELETE) in
      let* _ := modify (set_is_written true) in
      ret false
  | UPDATE =>
      let* _ := modify (set_rw location DELETE) in
      ret false
  | INSERT =>
      let* _ := modify (set_rw location INS_DEL) in
      let* _ := modify (fun c => set_insert_count (wrap_i64 (insert_count_ c - 1)) c) in
      ret true
  | DELETE | INS_DEL =>
      let* _ := PL_ASSERT false "Bad RWType" in
      ret false
  end.

(** [TransactionContext::AddOnCommitTrigger] *)
Definition AddOnCommitTrigger (trigger_data : TriggerData) (c : TransactionContext)
  : TransactionContext :=
  let c1 := match on_commit_triggers_ c with
            | None => set_on_commit_triggers (Some []) c
            | Some _ => c
            end in
  match on_commit_triggers_ c1 with
  | Some ts => set_on_commit_triggers (Some (ts ++ [trigger_data])) c1
  | None => c1
  end.

(** Modelled from the spec: [TriggerSet::ExecTriggers] (trigger/trigger.h
    is absent); the spec has the registered triggers fire in the order of
    the sequence.  The observable effect is the log of fired triggers. *)
Definition ExecTriggers (ts : TriggerSet) (fired : list TriggerData)
  : list TriggerData :=
  fold_left (fun log t => log ++ [t]) ts fired.

(** [TransactionContext::ExecOnCommitTriggers]; it assigns no member. *)
Definition ExecOnCommitTriggers (c : TransactionContext) (fired : list TriggerData)
  : list TriggerData :=
  match on_commit_triggers_ c with
  | Some ts => ExecTriggers ts fired
  | None => fired
  end.

End Txn.
Export Txn.

(** ** Sequences of [Record*] calls *)

Module History.

(** One call of the executor on the context. *)
Inductive call : Type :=
| CallRead (location : ItemPointer)
| CallReadOwn (location : ItemPointer)
| CallUpdate (location : ItemPointer)
| CallInsert (location : ItemPointer)
| CallDelete (location : ItemPointer).

Definition target (k : call) : ItemPointer :=
  match k with
  | CallRead l | CallReadOwn l | CallUpdate l | CallInsert l | CallDelete l => l
  end.

(** Make the call; the boolean of [RecordDelete] is dropped. *)
Definition perform (k : call) : M unit :=
  match k with
  | CallRead l => RecordRead l
  | CallReadOwn l => RecordReadOwn l
  | CallUpdate l => RecordUpdate l
  | CallInsert l => RecordInsert l
  | CallDelete l => let* _ := RecordDelete l in ret tt
  end.

(** Calls in program order; the first fatal assertion ends the run. *)
Fixpoint run (ks : list call) : M unit :=
  match ks with
  | [] => ret tt
  | k :: rest => let* _ := perform k in run rest
  end.

(** [completes ks c c']: every call of [ks], made in order from [c],
    completes normally, and [c'] is the context they leave. *)
Definition completes (ks : list call) (c c' : TransactionContext) : Prop :=
  run ks c = Done tt c'.

(** The slot [s] had mode [m] at some point of the history [ks] begun in
    [c0]: after some prefix of the calls. *)
Definition had_mode (ks : list call) (c0 : TransactionContext)
    (s : ItemPointer) (m : RWType) : Prop :=
  exists pre post c1,
    ks = pre ++ post /\ completes pre c0 c1 /\ GetRWType s c1 = m.

(** The history took the [INSERT] to [INS_DEL] branch of [RecordDelete]
    for the slot [s]. *)
Definition collapsed (ks : list call) (c0 : TransactionContext)
    (s : ItemPointer) : Prop :=
  exists pre post c1,
    ks = pre ++ CallDelete s :: post /\ completes pre c0 c1 /\
    GetRWType s c1 = INSERT.

(** The number of slots whose mode in [rw_set_] is [INSERT]. *)
Definition insert_slots (c : TransactionContext) : nat :=
  size (filter (fun kv => kv.2 = INSERT) (rw_set_ c)).

End History.
Export History.

(** ** The vocabulary of the properties *)

Module Step.

(** The switches of the five [Record*] functions read as one table: the
    mode a call leaves at its target, [None] where it reaches
    [PL_ASSERT(false)].  A proof device; [perform_step] ties it to the
    functions. *)
Definition transition (k : call) (m : RWType) : option RWType :=
  match k, m with
  | _, (DELETE | INS_DEL) => None
  | CallRead _, INVALID => Some READ
  | CallRead _, _ => Some m
  | CallReadOwn _, (INVALID | READ) => Some READ_OWN
  | CallReadOwn _, _ => Some m
  | CallUpdate _, (INVALID | READ | READ_OWN) => Some UPDATE
  | CallUpdate _, _ => Some m
  | CallInsert _, INVALID => Some INSERT
  | CallInsert _, _ => None
  | CallDelete _, INSERT => Some INS_DEL
  | CallDelete _, _ => Some DELETE
  end.

(** The calls that assign [is_written_ = true]. *)
Definition promotes (k : call) (m : RWType) : bool :=
  match k, m with
  | (CallUpdate _ | CallDelete _), (READ | READ_OWN) => true
  | _, _ => false
  end.

Definition read_mode (m : RWType) : bool :=
  match m with READ | READ_OWN => true | _ => false end.

Definition written_mode (m : RWType) : bool :=
  match m with UPDATE | DELETE | INS_DEL => true | _ => false end.

Definition terminal_mode (m : RWType) : bool :=
  match m with DELETE | INS_DEL => true | _ => false end.

(** The modes on the line that starts with a read. *)
Definition read_line (m : RWType) : bool :=
  match m with READ | READ_OWN | UPDATE | DELETE => true | _ => false end.

End Step.
Export Step.

Module Props.

(** A context as a constructor leaves it. *)
Definition fresh (c : TransactionContext) : Prop :=
  exists thread_id isolation read_id,
    c = new3 thread_id isolation read_id \/
    exists commit_id, c = new4 thread_id isolation read_id commit_id.

(** What [Init] leaves in the four identifier members. *)
Definition identifiers (read_id commit_id : cid_t) (c : TransactionContext) : Prop :=
  read_id_ c = read_id /\ commit_id_ c = commit_id /\
  txn_id_ c = commit_id_ c /\ epoch_id_ c = Z.shiftr (read_id_ c) 32.

(** Register the triggers of [ts], first to last. *)
Definition register (ts : list TriggerData) (c : TransactionContext)
  : TransactionContext :=
  fold_left (fun c t => AddOnCommitTrigger t c) ts c.

(** No entry of the read/write set holds the sentinel. *)
Definition no_invalid_stored (c : TransactionContext) : Prop :=
  forall s m, rw_set_ c !! s = Some m -> m <> INVALID.

(** The counter is the number of [INSERT] slots, modulo its width. *)
Definition counted (c : TransactionContext) : Prop :=
  insert_count_ c = wrap_i64 (Z.of_nat (insert_slots c)).

(** Some slot now holds [UPDATE], [DELETE] or [INS_DEL] and held [READ]
    or [READ_OWN] at an earlier point of the history. *)
Definition promoted (ks : list call) (c0 c : TransactionContext) : Prop :=
  exists s, written_mode (GetRWType s c) = true /\
    exists m, read_mode m = true /\ had_mode ks c0 s m.

End Props.
Export Props.

(** ** Contexts and call sequences of the scenarios *)

Module Scenarios.

(** A context as the three-argument constructor leaves it. *)
Definition a_fresh_context : TransactionContext :=
  new3 1 SERIALIZABLE 4294967296.

(** The context of the scenarios: slot (2,4) inserted on a fresh context. *)
Definition after_insert_2_4 : TransactionContext :=
  members (RecordInsert (mkItemPointer 2 4) (new3 1 SERIALIZABLE 4294967296)).

(** A context with one slot of each terminal mode: (3,0) deleted unseen,
    (2,3) inserted and then deleted. *)
Definition after_deletes : TransactionContext :=
  members (run [CallDelete (mkItemPointer 3 0); CallInsert (mkItemPointer 2 3);
                CallDelete (mkItemPointer 2 3)]
               (new3 1 SERIALIZABLE 4294967296)).

(** Two inserts, one of them deleted again, and a few reads. *)
Definition mixed_calls : list call :=
  [CallInsert (mkItemPointer 2 3); CallRead (mkItemPointer 1 0);
   CallInsert (mkItemPointer 2 4); CallUpdate (mkItemPointer 2 4);
   CallDelete (mkItemPointer 2 3); CallDelete (mkItemPointer 1 0)].

(** The context they leave. *)
Definition after_mixed_calls : TransactionContext :=
  members (run mixed_calls (new3 1 SERIALIZABLE 4294967296)).

(** The own-insert collapse: slot (2,3) inserted, then deleted. *)
Definition collapse_calls : list call :=
  [CallInsert (mkItemPointer 2 3); CallDelete (mkItemPointer 2 3)].

(** The context it leaves. *)
Definition after_collapse : TransactionContext :=
  members (run collapse_calls (new3 1 SERIALIZABLE 4294967296)).

(** Scenario 2 of the spec: a read, then an update of the same slot. *)
Definition read_then_update : list call :=
  [CallRead (mkItemPointer 1 0); CallUpdate (mkItemPointer 1 0)].

(** The context it leaves. *)
Definition after_read_then_update : TransactionContext :=
  members (run read_then_update (new3 1 SERIALIZABLE 4294967296)).

End Scenarios.
Export Scenarios.

(** ** The per-slot view of the state machine *)

Module Slot.

#[global] Instance call_eq_dec : EqDecision call.
Proof. solve_decision. Defined.

(** Reachability in the state diagram at the head of the source file:
    [INVALID] leads everywhere, the read line runs [READ], [READ_OWN],
    [UPDATE], [DELETE], the insert line runs [INSERT], [INS_DEL]. *)
Definition mode_le (m1 m2 : RWType) : bool :=
  match m1, m2 with
  | INVALID, _ => true
  | READ, (READ | READ_OWN | UPDATE | DELETE) => true
  | READ_OWN, (READ_OWN | UPDATE | DELETE) => true
  | UPDATE, (UPDATE | DELETE) => true
  | DELETE, DELETE => true
  | INSERT, (INSERT | INS_DEL) => true
  | INS_DEL, INS_DEL => true
  | _, _ => false
  end.

(** The calls of a history that target the slot [s], in order. *)
Definition calls_on (s : ItemPointer) (ks : list call) : list call :=
  filter (fun k => target k = s) ks.

(** One slot followed through a list of calls on it: the mode it ends
    in, [None] when one of the calls reaches the assertion. *)
Fixpoint slot_run (ks : list call) (m : RWType) : option RWType :=
  match ks with
  | [] => Some m
  | k :: rest =>
      match transition k m with
      | Some m' => slot_run rest m'
      | None => None
      end
  end.

(** Whether the call [k] occurs in the history. *)
Definition called (k : call) (ks : list call) : bool := bool_decide (k ∈ ks).

(** The strongest call made on the slot [s], as a mode. *)
Definition summary (s : ItemPointer) (ks : list call) : RWType :=
  if called (CallInsert s) ks then
    if called (CallDelete s) ks then INS_DEL else INSERT
  else if called (CallDelete s) ks then DELETE
  else if called (CallUpdate s) ks then UPDATE
  else if called (CallReadOwn s) ks then READ_OWN
  else if called (CallRead s) ks then READ
  else INVALID.

(** The calls that only read. *)
Definition read_call (k : call) : bool :=
  match k with CallRead _ | CallReadOwn _ => true | _ => false end.

(** What a completing call does to [insert_count_]. *)
Definition count_step (k : call) (m : RWType) (n : Z) : Z :=
  match k, m with
  | CallInsert _, INVALID => wrap_i64 (n + 1)
  | CallDelete _, INSERT => wrap_i64 (n - 1)
  | _, _ => n
  end.

(** The members no [Record*] function assigns. *)
Definition same_surroundings (c c' : TransactionContext) : Prop :=
  read_id_ c' = read_id_ c /\ commit_id_ c' = commit_id_ c /\
  txn_id_ c' = txn_id_ c /\ epoch_id_ c' = epoch_id_ c /\
  thread_id_ c' = thread_id_ c /\ isolation_level_ c' = isolation_level_ c /\
  gc_set_ c' = gc_set_ c /\ gc_object_set_ c' = gc_object_set_ c /\
  on_commit_triggers_ c' = on_commit_triggers_ c.

End Slot.
Export Slot.

(** ** The insert plan *)

(** [planner::InsertPlan] of [include/planner/insert_plan.h], with the
    members its inline functions read or assign.  [storage::DataTable],
    [storage::Tuple] and [planner::ProjectInfo] are declared in absent
    headers and the plan only holds pointers to them: they are type
    parameters, and a pointer is an [option], [None] for [nullptr]. *)

Module Plan.

Record InsertPlan (DataTable Tuple ProjectInfo : Type) : Type := mkInsertPlan {
  target_table_ : option DataTable;
  project_info_ : option ProjectInfo;
  tuples_ : list (option Tuple);
  bulk_insert_count_ : oid_t
}.
Arguments mkInsertPlan {DataTable Tuple ProjectInfo}.
Arguments target_table_ {DataTable Tuple ProjectInfo}.
Arguments project_info_ {DataTable Tuple ProjectInfo}.
Arguments tuples_ {DataTable Tuple ProjectInfo}.
Arguments bulk_insert_count_ {DataTable Tuple ProjectInfo}.

(** The default argument [bulk_insert_count = 1] of the constructors. *)
Definition default_bulk_insert_count : oid_t := 1.

(** "Construct when input is a logical tile". *)
Definition new_with_table {DataTable Tuple ProjectInfo : Type}
    (table : option DataTable) (bulk_insert_count : oid_t)
  : InsertPlan DataTable Tuple ProjectInfo :=
  {| target_table_ := table; project_info_ := None; tuples_ := [];
     bulk_insert_count_ := bulk_insert_count |}.

(** "Construct with a project info". *)
Definition new_with_projection {DataTable Tuple ProjectInfo : Type}
    (table : option DataTable) (project_info : option ProjectInfo)
    (bulk_insert_count : oid_t)
  : InsertPlan DataTable Tuple ProjectInfo :=
  {| target_table_ := table; project_info_ := project_info; tuples_ := [];
     bulk_insert_count_ := bulk_insert_count |}.

(** "Construct with a tuple": [tuples_.push_back(std::move(tuple))]. *)
Definition new_with_tuple {DataTable Tuple ProjectInfo : Type}
    (table : option DataTable) (tuple : option Tuple)
    (bulk_insert_count : oid_t)
  : InsertPlan DataTable Tuple ProjectInfo :=
  {| target_table_ := table; project_info_ := None; tuples_ := [] ++ [tuple];
     bulk_insert_count_ := bulk_insert_count |}.

Definition GetTable {DataTable Tuple ProjectInfo : Type}
    (p : InsertPlan DataTable Tuple ProjectInfo) : option DataTable :=
  target_table_ p.

Definition GetProjectInfo {DataTable Tuple ProjectInfo : Type}
    (p : InsertPlan DataTable Tuple ProjectInfo) : option ProjectInfo :=
  project_info_ p.

Definition GetBulkInsertCount {DataTable Tuple ProjectInfo : Type}
    (p : InsertPlan DataTable Tuple ProjectInfo) : oid_t :=
  bulk_insert_count_ p.

(** [(int) n] for a [size_t], and an [int] converted to the [size_t]
    index of [operator[]]: both modulo the width of the target. *)
Definition wrap_i32 (z : Z) : Z := (z + 2 ^ 31) mod 2 ^ 32 - 2 ^ 31.
Definition int_of_size (n : nat) : Z := wrap_i32 (Z.of_nat n).
Definition size_of_int (i : Z) : nat := Z.to_nat (i mod 2 ^ 64).

(** What an element access yields: the pointer stored there, or an
    access outside the vector, which the language leaves undefined. *)
Inductive fetched (A : Type) : Type :=
| Fetched (a : A)
| OutOfRange.
Arguments Fetched {A} a.
Arguments OutOfRange {A}.

(** [InsertPlan::GetTuple]; [tuple_idx] is an [int]. *)
Definition GetTuple {DataTable Tuple ProjectInfo : Type}
    (p : InsertPlan DataTable Tuple ProjectInfo) (tuple_idx : Z)
  : fetched (option Tuple) :=
  if tuple_idx >=? int_of_size (length (tuples_ p)) then Fetched None
  else match tuples_ p !! size_of_int tuple_idx with
       | Some t => Fetched t
       | None => OutOfRange
       end.

End Plan.
Export Plan.

(** ** Basic facts about the embedding *)

Ltac open_switch :=
  unfold RecordRead, RecordReadOwn, RecordUpdate, RecordInsert, RecordDelete,
    bind, gets, modify, ret, PL_ASSERT.

Section BasicFacts.

Implicit Types (c : TransactionContext) (s l : ItemPointer) (m : RWType).

Lemma GetRWType_set_rw s l m c :
  GetRWType s (set_rw l m c) = if decide (l = s) then m else GetRWType s c.
Proof.
  unfold GetRWType, set_rw; simpl. rewrite lookup_insert.
  by destruct (decide (l = s)).
Qed.

Lemma GetRWType_set_is_written s b c :
  GetRWType s (set_is_written b c) = GetRWType s c.
Proof. reflexivity. Qed.

Lemma GetRWType_set_insert_count s n c :
  GetRWType s (set_insert_count n c) = GetRWType s c.
Proof. reflexivity. Qed.

Lemma GetRWType_Init s t i r cid c :
  GetRWType s (Init t i r cid c) = GetRWType s c.
Proof. reflexivity. Qed.

Lemma GetRWType_default s : GetRWType s default_members = INVALID.
Proof. unfold GetRWType; simpl. by rewrite lookup_empty. Qed.

Lemma bind_Done {A B} (f : M A) (g : A -> M B) c b c' :
  bind f g c = Done b c' ->
  exists a c1, f c = Done a c1 /\ g a c1 = Done b c'.
Proof. unfold bind. destruct (f c); [eauto | discriminate]. Qed.

Lemma run_app ks1 ks2 c :
  run (ks1 ++ ks2) c =
  match run ks1 c with
  | Done _ c1 => run ks2 c1
  | Fatal msg c1 => Fatal msg c1
  end.
Proof.
  revert c. induction ks1 as [|k ks1 IH]; intros c; simpl; [done|].
  unfold bind. destruct (perform k c) as [[] c1|msg c1]; [apply IH | done].
Qed.

Lemma completes_nil c c' : completes [] c c' <-> c' = c.
Proof. unfold completes; simpl; unfold ret. split; congruence. Qed.

Lemma completes_cons k ks c c' :
  completes (k :: ks) c c' <->
  exists c1, perform k c = Done tt c1 /\ completes ks c1 c'.
Proof.
  unfold completes; simpl; unfold bind. split.
  - destruct (perform k c) as [[] c1|]; [eauto | discriminate].
  - intros (c1 & -> & H). exact H.
Qed.

Lemma completes_app ks1 ks2 c c' :
  completes (ks1 ++ ks2) c c' <->
  exists c1, completes ks1 c c1 /\ completes ks2 c1 c'.
Proof.
  unfold completes. rewrite run_app. split.
  - destruct (run ks1 c) as [[] c1|]; [eauto | discriminate].
  - intros (c1 & -> & H). exact H.
Qed.

Lemma completes_snoc ks k c c' :
  completes (ks ++ [k]) c c' <->
  exists c1, completes ks c c1 /\ perform k c1 = Done tt c'.
Proof.
  rewrite completes_app. split; intros (c1 & H1 & H2); exists c1; split; auto.
  - apply completes_cons in H2 as (c2 & Hk & ->%completes_nil). exact Hk.
  - apply completes_cons. exists c'. split; [done | by apply completes_nil].
Qed.

End BasicFacts.

(** ** Fresh contexts *)

Lemma fresh_new3 t i r : fresh (new3 t i r).
Proof. exists t, i, r. by left. Qed.

Lemma fresh_new4 t i r cid : fresh (new4 t i r cid).
Proof. exists t, i, r. right. by exists cid. Qed.

Lemma fresh_members c :
  fresh c ->
  rw_set_ c = ∅ /\ is_written_ c = false /\ insert_count_ c = 0 /\
  on_commit_triggers_ c = None.
Proof. intros (t & i & r & [-> | [cid ->]]); done. Qed.

(** The scalars the raw object held before [Init] do not show. *)
Lemma Init_overwrites t i r cid c1 c2 :
  rw_set_ c1 = rw_set_ c2 -> Init t i r cid c1 = Init t i r cid c2.
Proof. unfold Init. by intros ->. Qed.

(** ** Identifiers *)

(** C6: after either constructor and after either form of [Init], the
    epoch id is the read id shifted right by 32 and the transaction id
    is the commit id: the supplied one in the four-argument form,
    [INVALID_CID], which is 0, in the three-argument form. *)
Theorem Init_identifiers (thread_id : Z) (isolation : IsolationLevelType)
    (read_id commit_id : cid_t) (c : TransactionContext) :
  identifiers read_id commit_id (new4 thread_id isolation read_id commit_id) /\
  identifiers read_id INVALID_CID (new3 thread_id isolation read_id) /\
  identifiers read_id commit_id (Init thread_id isolation read_id commit_id c) /\
  identifiers read_id INVALID_CID (Init3 thread_id isolation read_id c) /\
  INVALID_CID = 0.
Proof. repeat split. Qed.

(** For a 64-bit read id the epoch is its high half. *)
Lemma epoch_high_half t i r cid c :
  0 <= r < 2 ^ 64 ->
  epoch_id_ (Init t i r cid c) = r / 2 ^ 32 /\
  0 <= epoch_id_ (Init t i r cid c) < 2 ^ 32.
Proof.
  intros Hr. simpl. unfold shr32. rewrite Z.shiftr_div_pow2 by lia.
  split; [done|]. split.
  - apply Z.div_pos; lia.
  - apply Z.div_lt_upper_bound; lia.
Qed.

(** ** [Init] and the read/write set *)

(** C10: [Init] leaves [rw_set_] as it was while it clears the written
    flag, the insert count, the garbage sets and the trigger list; so a
    slot recorded as [INSERT] is still so after [Init], with a count of 0. *)
Theorem Init_keeps_rw_set (thread_id : Z) (isolation : IsolationLevelType)
    (read_id commit_id : cid_t) (c : TransactionContext) :
  let c' := Init thread_id isolation read_id commit_id c in
  rw_set_ c' = rw_set_ c /\
  is_written_ c' = false /\ insert_count_ c' = 0 /\
  gc_set_ c' = Some ∅ /\ gc_object_set_ c' = Some [] /\
  on_commit_triggers_ c' = None /\
  insert_slots c' = insert_slots c /\
  forall s, GetRWType s c = INSERT ->
            GetRWType s c' = INSERT /\ insert_count_ c' = 0.
Proof. simpl. repeat split; auto. Qed.

(** A context on which [Init] breaks the count: one inserted slot,
    [Init] run again. *)
Example Init_again_after_insert :
  let c := members (RecordInsert (mkItemPointer 2 3) (new3 1 SERIALIZABLE 7)) in
  let c' := Init 1 SERIALIZABLE 9 INVALID_CID c in
  insert_count_ c = 1 /\ insert_slots c = 1%nat /\
  insert_count_ c' = 0 /\ insert_slots c' = 1%nat /\
  GetRWType (mkItemPointer 2 3) c' = INSERT.
Proof. vm_compute. repeat split. Qed.

(** ** On-commit triggers *)

Lemma ExecTriggers_log ts fired : ExecTriggers ts fired = fired ++ ts.
Proof.
  unfold ExecTriggers. revert fired.
  induction ts as [|t ts IH]; intros fired; simpl.
  - by rewrite app_nil_r.
  - rewrite IH. by rewrite <- app_assoc.
Qed.

Lemma AddOnCommitTrigger_list t c :
  on_commit_triggers_ (AddOnCommitTrigger t c) =
  Some (default [] (on_commit_triggers_ c) ++ [t]).
Proof.
  unfold AddOnCommitTrigger.
  destruct (on_commit_triggers_ c) as [ts|] eqn:E; simpl; [|done].
  by rewrite E.
Qed.

Lemma register_list ts c :
  on_commit_triggers_ (register ts c) =
  match ts with
  | [] => on_commit_triggers_ c
  | _ :: _ => Some (default [] (on_commit_triggers_ c) ++ ts)
  end.
Proof.
  revert c. induction ts as [|t ts IH]; intros c; [done|].
  change (register (t :: ts) c) with (register ts (AddOnCommitTrigger t c)).
  rewrite IH, AddOnCommitTrigger_list. destruct ts; simpl; [done|].
  by rewrite <- app_assoc.
Qed.

Lemma register_fires ts c fired :
  on_commit_triggers_ c = None ->
  ExecOnCommitTriggers (register ts c) fired = fired ++ ts.
Proof.
  intros Hc. unfold ExecOnCommitTriggers. rewrite register_list, Hc.
  destruct ts as [|t ts]; [by rewrite app_nil_r|].
  exact (ExecTriggers_log (t :: ts) fired).
Qed.

(** C9: on a context just initialised, registering T1, ..., Tn and then
    running [ExecOnCommitTriggers] fires exactly T1, ..., Tn in that
    order; with nothing registered the trigger list is still null and
    nothing is fired. *)
Theorem triggers_fire_in_registration_order (thread_id : Z)
    (isolation : IsolationLevelType) (read_id commit_id : cid_t)
    (c : TransactionContext) (ts fired : list TriggerData) :
  let c0 := Init thread_id isolation read_id commit_id c in
  ExecOnCommitTriggers (register ts c0) fired = fired ++ ts /\
  on_commit_triggers_ (register [] c0) = None /\
  ExecOnCommitTriggers (register [] c0) fired = fired.
Proof.
  simpl. split; [by apply register_fires|]. split; reflexivity.
Qed.

(** ** One call of the state machine *)

Section StepFacts.

Implicit Types (c : TransactionContext) (s l : ItemPointer) (m : RWType)
  (k : call) (ks : list call).

Lemma perform_step k c :
  match transition k (GetRWType (target k) c) with
  | None => perform k c = Fatal "Bad RWType" c
  | Some m' =>
      exists c', perform k c = Done tt c' /\
        (forall s, GetRWType s c' =
                   if decide (target k = s) then m' else GetRWType s c) /\
        is_written_ c' =
          (is_written_ c || promotes k (GetRWType (target k) c))
  end.
Proof.
  destruct k as [l|l|l|l|l]; cbn [perform target]; open_switch;
    destruct (GetRWType l c) eqn:E; cbn [transition promotes];
    try reflexivity;
    eexists; (split; [reflexivity|]);
    (split; [intros s;
             rewrite ?GetRWType_set_insert_count, ?GetRWType_set_is_written,
               ?GetRWType_set_rw;
             destruct (decide (l = s)) as [<-|]; congruence
            | simpl; by rewrite ?orb_true_r, ?orb_false_r]).
Qed.

Lemma perform_Done k c c' :
  perform k c = Done tt c' ->
  exists m', transition k (GetRWType (target k) c) = Some m' /\
    (forall s, GetRWType s c' =
               if decide (target k = s) then m' else GetRWType s c) /\
    is_written_ c' = (is_written_ c || promotes k (GetRWType (target k) c)).
Proof.
  intros H. pose proof (perform_step k c) as P.
  destruct (transition k (GetRWType (target k) c)) as [m'|].
  - destruct P as (c1 & P1 & P2). exists m'. split; [done|].
    rewrite P1 in H. by injection H as <-.
  - congruence.
Qed.

Lemma perform_Fatal k c msg c' :
  perform k c = Fatal msg c' -> c' = c /\ msg = "Bad RWType".
Proof.
  intros H. pose proof (perform_step k c) as P.
  destruct (transition k (GetRWType (target k) c)) as [m'|].
  - destruct P as (c1 & P1 & _). congruence.
  - split; congruence.
Qed.

(** A terminal mode stays through every completing call. *)
Lemma terminal_stays k c c' s :
  perform k c = Done tt c' ->
  terminal_mode (GetRWType s c) = true ->
  GetRWType s c' = GetRWType s c.
Proof.
  intros (m' & Ht & Hm & _)%perform_Done Hs. rewrite Hm.
  destruct (decide (target k = s)) as [<-|]; [|done].
  destruct k, (GetRWType _ c); simpl in *; congruence.
Qed.

Lemma terminal_stays_run ks c c' s :
  completes ks c c' ->
  terminal_mode (GetRWType s c) = true ->
  GetRWType s c' = GetRWType s c.
Proof.
  revert c. induction ks as [|k ks IH]; intros c H Hs.
  - apply completes_nil in H. by subst.
  - apply completes_cons in H as (c1 & Hk & Hks).
    pose proof (terminal_stays _ _ _ _ Hk Hs) as E.
    rewrite <- E. apply IH; [done | by rewrite E].
Qed.

(** Once read, a slot stays on the read line. *)
Lemma read_line_stays k c c' s :
  perform k c = Done tt c' ->
  read_line (GetRWType s c) = true ->
  read_line (GetRWType s c') = true.
Proof.
  intros (m' & Ht & Hm & _)%perform_Done Hs. rewrite Hm.
  destruct (decide (target k = s)) as [<-|]; [|done].
  destruct k, (GetRWType _ c); simpl in *; try discriminate;
    by injection Ht as <-.
Qed.

Lemma read_line_stays_run ks c c' s :
  completes ks c c' ->
  read_line (GetRWType s c) = true ->
  read_line (GetRWType s c') = true.
Proof.
  revert c. induction ks as [|k ks IH]; intros c H Hs.
  - apply completes_nil in H. by subst.
  - apply completes_cons in H as (c1 & Hk & Hks).
    eapply IH; [done|]. by eapply read_line_stays.
Qed.

End StepFacts.

(** ** The return value of [RecordDelete] *)

(** C2: where [RecordDelete(s)] completes it returns true exactly when
    the mode of [s] just before was [INSERT]; from [INVALID], [READ],
    [READ_OWN] and [UPDATE] it completes and returns false. *)
Theorem RecordDelete_true_iff_insert (s : ItemPointer) (c : TransactionContext) :
  (GetRWType s c = INSERT ->
     exists c', RecordDelete s c = Done true c' /\ GetRWType s c' = INS_DEL) /\
  (GetRWType s c = INVALID \/ GetRWType s c = READ \/
   GetRWType s c = READ_OWN \/ GetRWType s c = UPDATE ->
     exists c', RecordDelete s c = Done false c' /\ GetRWType s c' = DELETE) /\
  (forall b c', RecordDelete s c = Done b c' ->
     (b = true <-> GetRWType s c = INSERT)).
Proof.
  split; [|split].
  - intros E. open_switch. rewrite E. eexists. split; [reflexivity|].
    cbv beta. rewrite GetRWType_set_insert_count, GetRWType_set_rw.
    by rewrite decide_True.
  - intros E. open_switch.
    destruct E as [E|[E|[E|E]]]; rewrite E; eexists; (split; [reflexivity|]);
      rewrite ?GetRWType_set_is_written, GetRWType_set_rw;
      by rewrite decide_True.
  - intros b c'. open_switch.
    destruct (GetRWType s c); intros [= <- <-]; split; congruence.
Qed.

(** ** Scenario: the upgrade chain *)

(** C8: on a fresh context, read, read-own, update and delete of slot
    (4,0) all complete; the delete returns false and the context holds
    exactly (4,0) as [DELETE], the written flag set, no insert counted. *)
Theorem upgrade_chain (c0 : TransactionContext) :
  let s := mkItemPointer 4 0 in
  let chain := (let* _ := RecordRead s in
                let* _ := RecordReadOwn s in
                let* _ := RecordUpdate s in
                RecordDelete s) in
  fresh c0 ->
  exists c, chain c0 = Done false c /\
    rw_set_ c = {[ s := DELETE ]} /\
    is_written_ c = true /\ insert_count_ c = 0.
Proof.
  intros s chain (t & i & r & [-> | [cid ->]]); eexists;
    (split; [reflexivity|]); repeat split; reflexivity.
Qed.

Lemma upgrade_chain_witness :
  exists c,
    (let* _ := RecordRead (mkItemPointer 4 0) in
     let* _ := RecordReadOwn (mkItemPointer 4 0) in
     let* _ := RecordUpdate (mkItemPointer 4 0) in
     RecordDelete (mkItemPointer 4 0)) (new3 5 SNAPSHOT 8589934593)
    = Done false c /\
    rw_set_ c = {[ mkItemPointer 4 0 := DELETE ]} /\
    is_written_ c = true /\ insert_count_ c = 0.
Proof.
  apply (upgrade_chain (new3 5 SNAPSHOT 8589934593)).
  exists 5, SNAPSHOT, 8589934593. left. reflexivity.
Defined.

(** ** Illegal transitions *)

(** C4, as stated, fails: [RecordInsert] on a slot recorded as [INSERT]
    reaches the assertion of the [default] branch and does not complete. *)
Lemma RecordInsert_twice_aborts :
  GetRWType (mkItemPointer 2 4) after_insert_2_4 = INSERT /\
  RecordInsert (mkItemPointer 2 4) after_insert_2_4
    = Fatal "Bad RWType" after_insert_2_4 /\
  forall c', RecordInsert (mkItemPointer 2 4) after_insert_2_4 <> Done tt c'.
Proof.
  split; [reflexivity|]. split; [reflexivity|].
  intros c'. discriminate.
Qed.

(** C4, amended: [RecordInsert] on a slot whose mode is [INSERT] fails
    with the fatal assertion and leaves the context as it was: the mode
    of the slot is still [INSERT] and the insert count is unchanged. *)
Theorem RecordInsert_on_insert_aborts (s : ItemPointer) (c : TransactionContext) :
  GetRWType s c = INSERT ->
  RecordInsert s c = Fatal "Bad RWType" c /\
  GetRWType s (members (RecordInsert s c)) = INSERT /\
  insert_count_ (members (RecordInsert s c)) = insert_count_ c.
Proof.
  intros E.
  assert (RecordInsert s c = Fatal "Bad RWType" c) as ->
    by (open_switch; by rewrite E).
  by repeat split.
Qed.

Lemma RecordInsert_on_insert_aborts_witness :
  RecordInsert (mkItemPointer 2 4) after_insert_2_4
    = Fatal "Bad RWType" after_insert_2_4 /\
  GetRWType (mkItemPointer 2 4)
    (members (RecordInsert (mkItemPointer 2 4) after_insert_2_4)) = INSERT /\
  insert_count_ (members (RecordInsert (mkItemPointer 2 4) after_insert_2_4))
    = insert_count_ after_insert_2_4.
Proof.
  apply (RecordInsert_on_insert_aborts (mkItemPointer 2 4) after_insert_2_4).
  reflexivity.
Defined.

(** C5: once the mode of a slot is [DELETE] or [INS_DEL] it stays so
    through whatever calls complete afterwards, and each of the five
    [Record*] calls on that slot fails with the fatal assertion, leaving
    the context (read/write set, insert count, written flag) as it was. *)
Theorem terminal_modes_abort (s : ItemPointer) (ks : list call)
    (c c' : TransactionContext) :
  GetRWType s c = DELETE \/ GetRWType s c = INS_DEL ->
  completes ks c c' ->
  GetRWType s c' = GetRWType s c /\
  RecordRead s c' = Fatal "Bad RWType" c' /\
  RecordReadOwn s c' = Fatal "Bad RWType" c' /\
  RecordUpdate s c' = Fatal "Bad RWType" c' /\
  RecordInsert s c' = Fatal "Bad RWType" c' /\
  RecordDelete s c' = Fatal "Bad RWType" c'.
Proof.
  intros Hs Hks.
  assert (terminal_mode (GetRWType s c) = true) as Ht
    by (destruct Hs as [-> | ->]; reflexivity).
  pose proof (terminal_stays_run _ _ _ _ Hks Ht) as E.
  split; [exact E|].
  open_switch. rewrite E. destruct Hs as [-> | ->]; repeat split.
Qed.

Lemma terminal_modes_abort_witness :
  let s := mkItemPointer 2 3 in
  let c' := members (run [CallRead (mkItemPointer 1 0)] after_deletes) in
  GetRWType s c' = GetRWType s after_deletes /\
  RecordRead s c' = Fatal "Bad RWType" c' /\
  RecordReadOwn s c' = Fatal "Bad RWType" c' /\
  RecordUpdate s c' = Fatal "Bad RWType" c' /\
  RecordInsert s c' = Fatal "Bad RWType" c' /\
  RecordDelete s c' = Fatal "Bad RWType" c'.
Proof.
  apply (terminal_modes_abort (mkItemPointer 2 3) [CallRead (mkItemPointer 1 0)]
           after_deletes).
  - right. reflexivity.
  - reflexivity.
Defined.

(** ** What the read/write set stores *)

Lemma perform_no_invalid k c :
  no_invalid_stored c -> no_invalid_stored (members (perform k c)).
Proof.
  unfold no_invalid_stored. intros Hc.
  destruct k as [l|l|l|l|l]; cbn [perform]; open_switch;
    destruct (GetRWType l c); simpl; try exact Hc;
    intros s m; rewrite lookup_insert_Some;
    (intros [[_ <-]|[_ Hm]]; [discriminate | by eapply Hc]).
Qed.

Lemma run_no_invalid ks c :
  no_invalid_stored c -> no_invalid_stored (members (run ks c)).
Proof.
  revert c. induction ks as [|k ks IH]; intros c Hc; [exact Hc|].
  pose proof (perform_no_invalid k c Hc) as Hk.
  simpl. unfold bind. destruct (perform k c) as [[] c1|msg c1].
  - by apply IH.
  - exact Hk.
Qed.

(** C7: through every sequence of [Record*] calls on a fresh context,
    run to its end or to the first fatal assertion, [GetRWType] returns
    [INVALID] exactly for the slots without an entry, and every entry
    holds one of the six access modes. *)
Theorem invalid_never_stored (c0 : TransactionContext) (ks : list call)
    (s : ItemPointer) :
  fresh c0 ->
  let c := members (run ks c0) in
  (GetRWType s c = INVALID <-> rw_set_ c !! s = None) /\
  (forall m, rw_set_ c !! s = Some m ->
     m = READ \/ m = READ_OWN \/ m = UPDATE \/
     m = INSERT \/ m = DELETE \/ m = INS_DEL).
Proof.
  intros Hf c.
  assert (no_invalid_stored c) as Hc.
  { apply run_no_invalid. intros s' m.
    destruct (fresh_members _ Hf) as (-> & _). by rewrite lookup_empty. }
  split.
  - unfold GetRWType. destruct (rw_set_ c !! s) as [m|] eqn:E; [|done].
    split; [|done]. intros ->. by apply Hc in E.
  - intros m Hm. apply Hc in Hm. destruct m; auto 10. done.
Qed.

Lemma invalid_never_stored_witness :
  let c := members (run [CallRead (mkItemPointer 1 0);
                         CallDelete (mkItemPointer 1 0);
                         CallUpdate (mkItemPointer 1 0)]
                        (new4 2 READ_COMMITTED 4294967299 7)) in
  (GetRWType (mkItemPointer 1 1) c = INVALID <->
   rw_set_ c !! mkItemPointer 1 1 = None) /\
  (forall m, rw_set_ c !! mkItemPointer 1 1 = Some m ->
     m = READ \/ m = READ_OWN \/ m = UPDATE \/
     m = INSERT \/ m = DELETE \/ m = INS_DEL).
Proof.
  apply (invalid_never_stored (new4 2 READ_COMMITTED 4294967299 7)
           [CallRead (mkItemPointer 1 0); CallDelete (mkItemPointer 1 0);
            CallUpdate (mkItemPointer 1 0)] (mkItemPointer 1 1)).
  exists 2, READ_COMMITTED, 4294967299. right. exists 7. reflexivity.
Defined.

(** ** The insert count *)

Section InsertCount.

Implicit Types (c : TransactionContext) (l : ItemPointer) (m : RWType).

Lemma wrap_i64_small z : - 2 ^ 63 <= z <= INT64_MAX -> wrap_i64 z = z.
Proof.
  unfold wrap_i64, INT64_MAX. intros Hz. rewrite Z.mod_small; lia.
Qed.

Lemma wrap_i64_add a b : wrap_i64 (wrap_i64 a + b) = wrap_i64 (a + b).
Proof.
  unfold wrap_i64. f_equal.
  replace ((a + 2 ^ 63) mod 2 ^ 64 - 2 ^ 63 + b + 2 ^ 63)
    with ((a + 2 ^ 63) mod 2 ^ 64 + b) by lia.
  rewrite Zplus_mod_idemp_l. f_equal. lia.
Qed.

Lemma not_insert_lookup l c :
  GetRWType l c <> INSERT ->
  forall y, rw_set_ c !! l = Some y -> y <> INSERT.
Proof. unfold GetRWType. intros H y Hy. by rewrite Hy in H. Qed.

Lemma insert_slots_new l c :
  GetRWType l c <> INSERT ->
  insert_slots (set_rw l INSERT c) = S (insert_slots c).
Proof.
  intros H. unfold insert_slots, set_rw; simpl.
  rewrite map_filter_insert_True by done.
  apply map_size_insert_None, map_lookup_filter_None. right.
  intros y Hy. simpl. by eapply not_insert_lookup.
Qed.

Lemma insert_slots_other l m c :
  m <> INSERT -> GetRWType l c <> INSERT ->
  insert_slots (set_rw l m c) = insert_slots c.
Proof.
  intros Hm H. unfold insert_slots, set_rw; simpl.
  rewrite map_filter_insert_not'; [done | done |].
  intros y Hy. simpl. by eapply not_insert_lookup.
Qed.

Lemma insert_slots_collapse l m c :
  m <> INSERT -> GetRWType l c = INSERT ->
  S (insert_slots (set_rw l m c)) = insert_slots c.
Proof.
  intros Hm H. unfold insert_slots, set_rw; simpl.
  rewrite map_filter_insert_False by done.
  rewrite map_filter_delete.
  assert (filter (fun kv : ItemPointer * RWType => kv.2 = INSERT)
            (rw_set_ c) !! l = Some INSERT) as Hl.
  { apply map_lookup_filter_Some. split; [|done].
    unfold GetRWType in H. by destruct (rw_set_ c !! l) as [y|]; subst. }
  rewrite map_size_delete, Hl.
  apply Nat.succ_pred, map_size_ne_0_lookup_2 with l. by rewrite Hl.
Qed.

Lemma insert_slots_set_is_written b c :
  insert_slots (set_is_written b c) = insert_slots c.
Proof. reflexivity. Qed.

Lemma insert_slots_set_insert_count n c :
  insert_slots (set_insert_count n c) = insert_slots c.
Proof. reflexivity. Qed.

Lemma perform_counted k c c' :
  perform k c = Done tt c' -> counted c -> counted c'.
Proof.
  unfold counted.
  destruct k as [l|l|l|l|l]; cbn [perform]; open_switch;
    destruct (GetRWType l c) eqn:E; intros [= <-] Hc; try exact Hc;
    rewrite ?insert_slots_set_insert_count, ?insert_slots_set_is_written.
  all: try (rewrite insert_slots_other by (rewrite ?E; discriminate);
            exact Hc).
  - rewrite insert_slots_new by (rewrite E; discriminate).
    simpl. rewrite Hc, wrap_i64_add. f_equal. lia.
  - simpl. rewrite Hc, <- Z.add_opp_r, wrap_i64_add.
    rewrite <- (insert_slots_collapse l INS_DEL c) by done.
    f_equal. lia.
Qed.

Lemma run_counted ks c c' : completes ks c c' -> counted c -> counted c'.
Proof.
  revert c. induction ks as [|k ks IH]; intros c H Hc.
  - apply completes_nil in H. by subst.
  - apply completes_cons in H as (c1 & Hk & Hks).
    eapply IH; [done|]. by eapply perform_counted.
Qed.

Lemma fresh_counted c : fresh c -> counted c.
Proof.
  intros (Hrw & _ & Hn & _)%fresh_members.
  unfold counted, insert_slots. rewrite Hrw, Hn, map_filter_empty.
  by rewrite map_size_empty.
Qed.

(** Each call adds at most one entry to the read/write set. *)
Lemma perform_size k c c' :
  perform k c = Done tt c' ->
  (size (rw_set_ c') <= S (size (rw_set_ c)))%nat.
Proof.
  destruct k as [l|l|l|l|l]; cbn [perform]; open_switch;
    destruct (GetRWType l c); intros [= <-]; simpl;
    rewrite ?map_size_insert; try destruct (rw_set_ c !! l); simpl; lia.
Qed.

Lemma run_size ks c c' :
  completes ks c c' ->
  (size (rw_set_ c') <= length ks + size (rw_set_ c))%nat.
Proof.
  revert c. induction ks as [|k ks IH]; intros c H.
  - apply completes_nil in H. subst. simpl. lia.
  - apply completes_cons in H as (c1 & Hk & Hks).
    apply IH in Hks. apply perform_size in Hk. simpl. lia.
Qed.

(** So a run counts no more [INSERT] slots than it has calls. *)
Lemma insert_slots_le_calls c0 c ks :
  fresh c0 -> completes ks c0 c -> (insert_slots c <= length ks)%nat.
Proof.
  intros (Hrw & _)%fresh_members Hks. apply run_size in Hks.
  rewrite Hrw, map_size_empty in Hks.
  pose proof (map_size_filter (fun kv : ItemPointer * RWType => kv.2 = INSERT)
                (rw_set_ c)) as Hle.
  unfold insert_slots. lia.
Qed.

End InsertCount.

(** C1: after any sequence of [Record*] calls on a fresh context that
    all complete, [insert_count_] is the number of slots whose mode is
    [INSERT] (a number the 64-bit counter can hold). *)
Theorem insert_count_counts_inserts (c0 c : TransactionContext) (ks : list call) :
  fresh c0 ->
  completes ks c0 c ->
  Z.of_nat (insert_slots c) <= INT64_MAX ->
  insert_count_ c = Z.of_nat (insert_slots c).
Proof.
  intros Hf Hks Hmax.
  pose proof (run_counted _ _ _ Hks (fresh_counted _ Hf)) as Hc.
  unfold counted in Hc.
  rewrite Hc. apply wrap_i64_small. unfold INT64_MAX in *. lia.
Qed.

(** The bound holds for every run of fewer than 2^63 calls. *)
Lemma short_run_count_fits (c0 c : TransactionContext) (ks : list call) :
  fresh c0 ->
  completes ks c0 c ->
  Z.of_nat (length ks) <= INT64_MAX ->
  Z.of_nat (insert_slots c) <= INT64_MAX.
Proof.
  intros Hf Hks Hlen. pose proof (insert_slots_le_calls _ _ _ Hf Hks). lia.
Qed.

Lemma insert_count_counts_inserts_witness :
  insert_count_ after_mixed_calls = Z.of_nat (insert_slots after_mixed_calls).
Proof.
  apply (insert_count_counts_inserts (new3 1 SERIALIZABLE 4294967296)
           after_mixed_calls mixed_calls).
  - exists 1, SERIALIZABLE, 4294967296. left. reflexivity.
  - vm_compute. reflexivity.
  - vm_compute. discriminate.
Defined.

Example after_mixed_calls_count :
  insert_count_ after_mixed_calls = 1 /\ insert_slots after_mixed_calls = 1%nat.
Proof. vm_compute. by split. Qed.

(** ** The written flag *)

Section WrittenFlag.

Implicit Types (c : TransactionContext) (s : ItemPointer) (m : RWType)
  (k : call) (ks : list call).

Lemma completes_functional ks c c1 c2 :
  completes ks c c1 -> completes ks c c2 -> c1 = c2.
Proof. unfold completes. congruence. Qed.

Lemma fresh_mode c0 s : fresh c0 -> GetRWType s c0 = INVALID.
Proof.
  intros (Hrw & _)%fresh_members. unfold GetRWType.
  by rewrite Hrw, lookup_empty.
Qed.

Lemma had_mode_snoc ks k c0 s m :
  had_mode (ks ++ [k]) c0 s m <->
  had_mode ks c0 s m \/
  exists c, completes (ks ++ [k]) c0 c /\ GetRWType s c = m.
Proof.
  split.
  - intros (pre & post & c1 & Heq & Hpre & Hm).
    destruct post as [|p post _] using rev_ind.
    + rewrite app_nil_r in Heq. subst pre. right. by exists c1.
    + rewrite app_assoc in Heq. apply app_inj_tail in Heq as [-> ->].
      left. by exists pre, post, c1.
  - intros [(pre & post & c1 & -> & Hpre & Hm) | (c & Hc & Hm)].
    + exists pre, (post ++ [k]), c1. by rewrite app_assoc.
    + exists (ks ++ [k]), [], c. by rewrite app_nil_r.
Qed.

Lemma had_read_on_line ks c0 c s m :
  had_mode ks c0 s m -> read_mode m = true -> completes ks c0 c ->
  read_line (GetRWType s c) = true.
Proof.
  intros (pre & post & c1 & -> & Hpre & <-) Hr Hc.
  apply completes_app in Hc as (c1' & Hpre' & Hpost).
  rewrite (completes_functional _ _ _ _ Hpre' Hpre) in Hpost.
  eapply read_line_stays_run; [done|].
  by destruct (GetRWType s c1).
Qed.

Lemma written_stays k c c' s :
  perform k c = Done tt c' ->
  written_mode (GetRWType s c) = true ->
  written_mode (GetRWType s c') = true.
Proof.
  intros (m' & Ht & Hm & _)%perform_Done Hs. rewrite Hm.
  destruct (decide (target k = s)) as [<-|]; [|done].
  destruct k, (GetRWType _ c); simpl in *; try discriminate;
    by injection Ht as <-.
Qed.

(** The calls that set the flag are those that promote a read slot. *)
Lemma promotes_spec k m m' :
  transition k m = Some m' ->
  (promotes k m = true <-> read_mode m = true /\ written_mode m' = true).
Proof.
  destruct k, m; simpl; intros [= <-]; simpl; intuition discriminate.
Qed.

End WrittenFlag.

(** C3, as stated, fails: the [INSERT] to [INS_DEL] branch does not set
    [is_written_]; after an insert and a delete of one slot the flag is
    still false although the collapse path was taken. *)
Lemma written_flag_not_set_by_collapse :
  fresh (new3 1 SERIALIZABLE 4294967296) /\
  completes collapse_calls (new3 1 SERIALIZABLE 4294967296) after_collapse /\
  is_written_ after_collapse = false /\
  collapsed collapse_calls (new3 1 SERIALIZABLE 4294967296) (mkItemPointer 2 3) /\
  ~ (is_written_ after_collapse = true <->
     promoted collapse_calls (new3 1 SERIALIZABLE 4294967296) after_collapse \/
     exists s, collapsed collapse_calls (new3 1 SERIALIZABLE 4294967296) s).
Proof.
  assert (collapsed collapse_calls (new3 1 SERIALIZABLE 4294967296)
            (mkItemPointer 2 3)) as Hc.
  { exists [CallInsert (mkItemPointer 2 3)], [],
      (members (RecordInsert (mkItemPointer 2 3)
                  (new3 1 SERIALIZABLE 4294967296))).
    repeat split. }
  split; [apply fresh_new3|]. split; [reflexivity|].
  split; [reflexivity|]. split; [exact Hc|].
  intros [_ H].
  assert (is_written_ after_collapse = true) as Hw
    by (apply H; right; eauto).
  discriminate Hw.
Qed.

(** C3, amended: after any sequence of [Record*] calls on a fresh
    context that all complete, [is_written_] is true exactly when some
    slot now holds [UPDATE], [DELETE] or [INS_DEL] and held [READ] or
    [READ_OWN] earlier in the history. *)
Theorem written_flag_iff_promoted (c0 c : TransactionContext) (ks : list call) :
  fresh c0 ->
  completes ks c0 c ->
  (is_written_ c = true <-> promoted ks c0 c).
Proof.
  intros Hf. revert c.
  induction ks as [|k ks IH] using rev_ind; intros c H.
  - apply completes_nil in H. subst c.
    destruct (fresh_members _ Hf) as (_ & -> & _). split; [discriminate|].
    intros (s & _ & m & Hr & pre & post & c1 & Heq & Hpre & Hm).
    symmetry in Heq. apply app_eq_nil in Heq as [-> ->].
    apply completes_nil in Hpre. subst c1.
    rewrite (fresh_mode _ s Hf) in Hm. by subst m.
  - apply completes_snoc in H as (c1 & Hks & Hk).
    specialize (IH c1 Hks).
    pose proof Hk as (m' & Ht & Hm & Hw)%perform_Done.
    rewrite Hw, orb_true_iff. split.
    + intros [Hold | Hnew].
      * apply IH in Hold as (s & Hws & m & Hr & Hh). exists s. split.
        { by eapply written_stays. }
        exists m. split; [done|]. apply had_mode_snoc. by left.
      * apply (promotes_spec _ _ _ Ht) in Hnew as [Hr Hws].
        exists (target k). split.
        { by rewrite Hm, decide_True. }
        exists (GetRWType (target k) c1). split; [done|].
        by exists ks, [k], c1.
    + intros (s & Hws & m & Hr & Hh).
      apply had_mode_snoc in Hh as [Hh | (c' & Hc' & Hm')].
      * pose proof (had_read_on_line _ _ _ _ _ Hh Hr Hks) as Hline.
        destruct (written_mode (GetRWType s c1)) eqn:Hw1.
        { left. apply IH. exists s. split; [done|]. by exists m. }
        right. rewrite Hm in Hws.
        destruct (decide (target k = s)) as [<-|]; [|congruence].
        apply (promotes_spec _ _ _ Ht). split; [|done].
        by destruct (GetRWType (target k) c1).
      * assert (c' = c) as ->.
        { eapply completes_functional; [done|].
          apply completes_snoc. by exists c1. }
        rewrite Hm' in Hws. by destruct m.
Qed.

Lemma written_flag_iff_promoted_witness :
  is_written_ after_read_then_update = true <->
  promoted read_then_update (new3 1 SERIALIZABLE 4294967296)
    after_read_then_update.
Proof.
  apply (written_flag_iff_promoted (new3 1 SERIALIZABLE 4294967296)
           after_read_then_update read_then_update).
  - exists 1, SERIALIZABLE, 4294967296. left. reflexivity.
  - vm_compute. reflexivity.
Defined.

Example after_read_then_update_written :
  is_written_ after_read_then_update = true /\
  is_written_ after_collapse = false.
Proof. vm_compute. by split. Qed.

(** ** The end-to-end scenarios of the spec *)

(** Fresh read-only. *)
Example scenario_read_only :
  let c := members (run [CallRead (mkItemPointer 1 0);
                         CallRead (mkItemPointer 1 1)] a_fresh_context) in
  rw_set_ c = {[ mkItemPointer 1 0 := READ; mkItemPointer 1 1 := READ ]} /\
  is_written_ c = false /\ insert_count_ c = 0.
Proof. vm_compute. by repeat split. Qed.

(** Read then update. *)
Example scenario_read_then_update :
  rw_set_ after_read_then_update = {[ mkItemPointer 1 0 := UPDATE ]} /\
  is_written_ after_read_then_update = true /\
  insert_count_ after_read_then_update = 0.
Proof. vm_compute. by repeat split. Qed.

(** Insert then delete: the own-insert collapse. *)
Example scenario_insert_then_delete :
  let c1 := members (RecordInsert (mkItemPointer 2 3) a_fresh_context) in
  insert_count_ c1 = 1 /\
  exists c2, RecordDelete (mkItemPointer 2 3) c1 = Done true c2 /\
    insert_count_ c2 = 0 /\ rw_set_ c2 = {[ mkItemPointer 2 3 := INS_DEL ]}.
Proof.
  split; [reflexivity|]. eexists. split; [reflexivity|].
  vm_compute. by split.
Qed.

(** Insert, then read, read-own and update of the same slot change nothing. *)
Example scenario_insert_then_reads :
  let c := members (run [CallInsert (mkItemPointer 2 4);
                         CallRead (mkItemPointer 2 4);
                         CallReadOwn (mkItemPointer 2 4);
                         CallUpdate (mkItemPointer 2 4)] a_fresh_context) in
  GetRWType (mkItemPointer 2 4) c = INSERT /\
  insert_count_ c = 1 /\ is_written_ c = false.
Proof. vm_compute. by repeat split. Qed.

(** Delete of an unseen slot. *)
Example scenario_delete_unseen :
  exists c, RecordDelete (mkItemPointer 3 0) a_fresh_context = Done false c /\
    rw_set_ c = {[ mkItemPointer 3 0 := DELETE ]} /\ is_written_ c = false.
Proof. eexists. split; [reflexivity|]. vm_compute. by split. Qed.

(** Three triggers fire in the order they were registered. *)
Example scenario_triggers :
  ExecOnCommitTriggers (register [1%N; 2%N; 3%N] a_fresh_context) []
  = [1%N; 2%N; 3%N].
Proof. reflexivity. Qed.

(** ** Further properties of the state machine *)

Section RunFacts.

Implicit Types (c : TransactionContext) (s l : ItemPointer) (m : RWType)
  (k : call) (ks : list call).

Lemma GetRWType_lookup s c m :
  GetRWType s c = m -> m <> INVALID -> rw_set_ c !! s = Some m.
Proof.
  unfold GetRWType. destruct (rw_set_ c !! s); intros <-; congruence.
Qed.

Lemma same_surroundings_refl c : same_surroundings c c.
Proof. by repeat split. Qed.

Lemma same_surroundings_trans c1 c2 c3 :
  same_surroundings c1 c2 -> same_surroundings c2 c3 ->
  same_surroundings c1 c3.
Proof. unfold same_surroundings. intuition congruence. Qed.

(** Two contexts with the same members are the same context. *)
Lemma context_eq c c' :
  same_surroundings c c' -> is_written_ c' = is_written_ c ->
  insert_count_ c' = insert_count_ c -> rw_set_ c' = rw_set_ c -> c' = c.
Proof.
  destruct c, c'. unfold same_surroundings. simpl.
  intros (? & ? & ? & ? & ? & ? & ? & ? & ?) ? ? ?. by subst.
Qed.

(** Every member after a completing call, from the members before. *)
Lemma perform_normal k c c' :
  perform k c = Done tt c' ->
  exists m', transition k (GetRWType (target k) c) = Some m' /\
    rw_set_ c' = <[target k := m']> (rw_set_ c) /\
    is_written_ c' = is_written_ c || promotes k (GetRWType (target k) c) /\
    insert_count_ c' = count_step k (GetRWType (target k) c) (insert_count_ c) /\
    same_surroundings c c'.
Proof.
  destruct k as [l|l|l|l|l]; cbn [perform target]; open_switch;
    destruct (GetRWType l c) eqn:E; intros [= <-];
    (eexists; split; [reflexivity|]); simpl;
    (split; [first [reflexivity
                   | symmetry; apply insert_id; by apply GetRWType_lookup]|]);
    (split; [by rewrite ?orb_true_r, ?orb_false_r|]);
    (split; [reflexivity | by repeat split]).
Qed.

(** A property of the context a run leaves, completed or not, follows
    from what single completing calls do. *)
Lemma run_members_ind (R : TransactionContext -> TransactionContext -> Prop) :
  (forall c, R c c) ->
  (forall k c c1 c2, perform k c = Done tt c1 -> R c1 c2 -> R c c2) ->
  forall ks c, R c (members (run ks c)).
Proof.
  intros Hrefl Hstep ks. induction ks as [|k ks IH]; intros c; [apply Hrefl|].
  simpl. unfold bind. destruct (perform k c) as [[] c1|msg c1] eqn:Hk.
  - eapply Hstep; [exact Hk | apply IH].
  - apply perform_Fatal in Hk as [-> _]. apply Hrefl.
Qed.

Lemma mode_le_refl m : mode_le m m = true.
Proof. by destruct m. Qed.

Lemma mode_le_trans m1 m2 m3 :
  mode_le m1 m2 = true -> mode_le m2 m3 = true -> mode_le m1 m3 = true.
Proof. by destruct m1, m2, m3. Qed.

Lemma transition_advances k m m' :
  transition k m = Some m' -> mode_le m m' = true.
Proof. destruct k, m; simpl; by intros [= <-]. Qed.

(** [++] and then [--] on a 64-bit counter. *)
Lemma wrap_i64_inc_dec n :
  - 2 ^ 63 <= n <= INT64_MAX -> wrap_i64 (wrap_i64 (n + 1) - 1) = n.
Proof.
  intros Hn. rewrite <- Z.add_opp_r, wrap_i64_add.
  replace (n + 1 + - (1)) with n by lia. by apply wrap_i64_small.
Qed.

Lemma transition_valid k m m' : transition k m = Some m' -> m' <> INVALID.
Proof. destruct k, m; simpl; by intros [= <-]. Qed.

End RunFacts.

(** X1: a run of [Record*] calls, completed or cut short by an
    assertion, leaves the entry of every slot it does not target as it
    was. *)
Theorem untargeted_slots_untouched (ks : list call) (c : TransactionContext)
    (s : ItemPointer) :
  s ∉ target <$> ks ->
  rw_set_ (members (run ks c)) !! s = rw_set_ c !! s.
Proof.
  revert c. induction ks as [|k ks IH]; intros c Hs; [done|].
  rewrite fmap_cons, not_elem_of_cons in Hs. destruct Hs as [Hk Hks].
  simpl. unfold bind. destruct (perform k c) as [[] c1|msg c1] eqn:E.
  - rewrite (IH c1 Hks).
    apply perform_normal in E as (m' & _ & -> & _).
    by rewrite lookup_insert_ne.
  - by apply perform_Fatal in E as [-> _].
Qed.

Lemma untargeted_slots_untouched_witness :
  rw_set_ (members (run mixed_calls a_fresh_context)) !! mkItemPointer 9 9
  = rw_set_ a_fresh_context !! mkItemPointer 9 9.
Proof.
  apply (untargeted_slots_untouched mixed_calls a_fresh_context
           (mkItemPointer 9 9)).
  vm_compute. intros H. repeat (apply elem_of_cons in H as [H|H]; [discriminate|]).
  by apply elem_of_nil in H.
Defined.

(** X2: no run of [Record*] calls, completed or not, changes the
    identifiers, the thread id, the isolation level, the garbage sets or
    the trigger list. *)
Theorem record_calls_keep_surroundings (ks : list call) (c : TransactionContext) :
  same_surroundings c (members (run ks c)).
Proof.
  apply (run_members_ind same_surroundings).
  - apply same_surroundings_refl.
  - intros k c0 c1 c2 (m' & _ & _ & _ & _ & H)%perform_normal H2.
    by eapply same_surroundings_trans.
Qed.

(** X3: [RecordRead], [RecordReadOwn], [RecordUpdate] and [RecordDelete]
    complete exactly when the slot is not yet [DELETE] or [INS_DEL];
    [RecordInsert] completes exactly when the slot has no mode yet. *)
Theorem record_completion_conditions (s : ItemPointer) (c : TransactionContext) :
  ((exists c', RecordRead s c = Done tt c') <->
     terminal_mode (GetRWType s c) = false) /\
  ((exists c', RecordReadOwn s c = Done tt c') <->
     terminal_mode (GetRWType s c) = false) /\
  ((exists c', RecordUpdate s c = Done tt c') <->
     terminal_mode (GetRWType s c) = false) /\
  ((exists b c', RecordDelete s c = Done b c') <->
     terminal_mode (GetRWType s c) = false) /\
  ((exists c', RecordInsert s c = Done tt c') <-> GetRWType s c = INVALID).
Proof.
  open_switch. destruct (GetRWType s c); simpl; repeat split;
    try (intros; by eauto); try (intros; discriminate);
    try (intros (? & ?); discriminate);
    try (intros (? & ? & ?); discriminate).
Qed.

(** X4: a run that is cut short stops at its first failing call, with
    the message of the assertion, and leaves the context exactly as the
    calls before that one left it. *)
Theorem aborted_run_keeps_prefix (ks : list call) (c c' : TransactionContext)
    (msg : string) :
  run ks c = Fatal msg c' ->
  exists pre k post,
    ks = pre ++ k :: post /\ completes pre c c' /\
    perform k c' = Fatal msg c' /\ msg = "Bad RWType".
Proof.
  revert c. induction ks as [|k ks IH]; intros c H; [discriminate|].
  simpl in H. unfold bind in H.
  destruct (perform k c) as [[] c1|msg1 c1] eqn:E.
  - apply IH in H as (pre & k' & post & -> & Hpre & Hk' & Hmsg).
    exists (k :: pre), k', post. split; [done|]. split; [|done].
    apply completes_cons. by exists c1.
  - injection H as -> ->.
    pose proof E as [-> ->]%perform_Fatal.
    exists [], k, ks. split; [done|]. split; [by apply completes_nil|done].
Qed.

Lemma aborted_run_keeps_prefix_witness :
  exists pre k post,
    [CallRead (mkItemPointer 1 0); CallInsert (mkItemPointer 1 0);
     CallUpdate (mkItemPointer 1 0)] = pre ++ k :: post /\
    completes pre a_fresh_context
      (members (RecordRead (mkItemPointer 1 0) a_fresh_context)) /\
    perform k (members (RecordRead (mkItemPointer 1 0) a_fresh_context))
      = Fatal "Bad RWType"
          (members (RecordRead (mkItemPointer 1 0) a_fresh_context)) /\
    "Bad RWType" = "Bad RWType".
Proof.
  apply (aborted_run_keeps_prefix
           [CallRead (mkItemPointer 1 0); CallInsert (mkItemPointer 1 0);
            CallUpdate (mkItemPointer 1 0)] a_fresh_context).
  vm_compute. reflexivity.
Defined.

(** X5: a call absorbs the weaker ones: after a [RecordRead] another
    [RecordRead] of the slot changes nothing; after [RecordReadOwn] so do
    [RecordRead] and [RecordReadOwn]; after [RecordUpdate] or
    [RecordInsert] so do all three of read, read-own and update. *)
Theorem weaker_calls_absorbed (s : ItemPointer) (c c1 : TransactionContext) :
  (RecordRead s c = Done tt c1 -> RecordRead s c1 = Done tt c1) /\
  (RecordReadOwn s c = Done tt c1 ->
     RecordRead s c1 = Done tt c1 /\ RecordReadOwn s c1 = Done tt c1) /\
  (RecordUpdate s c = Done tt c1 ->
     RecordRead s c1 = Done tt c1 /\ RecordReadOwn s c1 = Done tt c1 /\
     RecordUpdate s c1 = Done tt c1) /\
  (RecordInsert s c = Done tt c1 ->
     RecordRead s c1 = Done tt c1 /\ RecordReadOwn s c1 = Done tt c1 /\
     RecordUpdate s c1 = Done tt c1).
Proof.
  split; [|split; [|split]]; open_switch;
    destruct (GetRWType s c) eqn:E; intros [= <-];
    rewrite ?GetRWType_set_insert_count, ?GetRWType_set_is_written,
      ?GetRWType_set_rw, ?decide_True, ?E by done;
    by repeat split.
Qed.

(** X6: along any run, completed or not, the mode of a slot only moves
    forward in the state diagram: never back to a weaker mode, never
    from the read line to the insert line or the other way. *)
Theorem modes_only_advance (ks : list call) (c : TransactionContext)
    (s : ItemPointer) :
  mode_le (GetRWType s c) (GetRWType s (members (run ks c))) = true.
Proof.
  apply (run_members_ind
           (fun c c' => mode_le (GetRWType s c) (GetRWType s c') = true)).
  - intros c0. apply mode_le_refl.
  - intros k c0 c1 c2 (m' & Ht & Hm & _)%perform_Done H2.
    eapply mode_le_trans; [|exact H2]. rewrite Hm.
    destruct (decide (target k = s)) as [<-|]; [|apply mode_le_refl].
    by eapply transition_advances.
Qed.

(** X7: after a completing run the read/write set holds an entry for
    exactly the slots it held before and the slots the calls targeted. *)
Theorem rw_set_holds_touched_slots (ks : list call) (c c' : TransactionContext) :
  completes ks c c' ->
  dom (rw_set_ c') = dom (rw_set_ c) ∪ list_to_set (target <$> ks).
Proof.
  revert c. induction ks as [|k ks IH]; intros c H.
  - apply completes_nil in H. subst. simpl.
    by rewrite (right_id_L ∅ (∪)).
  - apply completes_cons in H as (c1 & Hk & Hks).
    rewrite (IH _ Hks).
    apply perform_normal in Hk as (m' & _ & -> & _).
    rewrite dom_insert_L, fmap_cons, list_to_set_cons.
    rewrite (comm_L (∪) {[target k]} (dom (rw_set_ c))).
    by rewrite (assoc_L (∪)).
Qed.

Lemma rw_set_holds_touched_slots_witness :
  dom (rw_set_ after_mixed_calls)
  = dom (rw_set_ a_fresh_context) ∪ list_to_set (target <$> mixed_calls).
Proof.
  apply (rw_set_holds_touched_slots mixed_calls a_fresh_context
           after_mixed_calls).
  vm_compute. reflexivity.
Defined.

(** X8: the written flag is sticky: once set, no run of [Record*] calls,
    completed or not, clears it. *)
Theorem written_flag_sticky (ks : list call) (c : TransactionContext) :
  is_written_ c = true -> is_written_ (members (run ks c)) = true.
Proof.
  apply (run_members_ind
           (fun c c' => is_written_ c = true -> is_written_ c' = true)).
  - done.
  - intros k c0 c1 c2 (m' & _ & _ & Hw)%perform_Done H2 H0.
    apply H2. by rewrite Hw, H0.
Qed.

Lemma written_flag_sticky_witness :
  is_written_ (members (run mixed_calls after_read_then_update)) = true.
Proof.
  apply (written_flag_sticky mixed_calls after_read_then_update).
  vm_compute. reflexivity.
Defined.

(** X9: a history of reads only never fails: on a context whose slots
    are all unseen, [READ] or [READ_OWN], every sequence of [RecordRead]
    and [RecordReadOwn] calls completes, and it leaves the written flag
    and the insert count as they were and every slot unseen, [READ] or
    [READ_OWN]. *)
Theorem read_only_history_completes (ks : list call) (c : TransactionContext) :
  Forall (fun k => read_call k = true) ks ->
  (forall s, mode_le (GetRWType s c) READ_OWN = true) ->
  exists c', completes ks c c' /\
    is_written_ c' = is_written_ c /\ insert_count_ c' = insert_count_ c /\
    forall s, mode_le (GetRWType s c') READ_OWN = true.
Proof.
  revert c. induction ks as [|k ks IH]; intros c Hks Hc.
  - exists c. split; [by apply completes_nil|done].
  - apply Forall_cons in Hks as [Hk Hks].
    pose proof (perform_step k c) as P. pose proof (Hc (target k)) as Ht.
    assert (exists m', transition k (GetRWType (target k) c) = Some m' /\
              mode_le m' READ_OWN = true /\
              promotes k (GetRWType (target k) c) = false /\
              count_step k (GetRWType (target k) c) (insert_count_ c)
              = insert_count_ c) as (m' & Et & Hle & Hp & Hcount).
    { destruct k; try discriminate; simpl in *;
        destruct (GetRWType location c); try discriminate; by eexists. }
    rewrite Et in P. destruct P as (c1 & Hc1 & Hm & Hw).
    pose proof Hc1 as (? & _ & _ & _ & Hn & _)%perform_normal.
    destruct (IH c1 Hks) as (c' & Hrun & Hw' & Hn' & Hall).
    { intros s. rewrite Hm. destruct (decide (target k = s)); [done|apply Hc]. }
    exists c'. split; [apply completes_cons; by exists c1|].
    rewrite Hw', Hn', Hw, Hn, Hp, Hcount. by rewrite orb_false_r.
Qed.

Lemma read_only_history_completes_witness :
  exists c',
    completes [CallRead (mkItemPointer 1 0); CallReadOwn (mkItemPointer 1 0);
               CallRead (mkItemPointer 1 1)] a_fresh_context c' /\
    is_written_ c' = is_written_ a_fresh_context /\
    insert_count_ c' = insert_count_ a_fresh_context /\
    forall s, mode_le (GetRWType s c') READ_OWN = true.
Proof.
  apply (read_only_history_completes
           [CallRead (mkItemPointer 1 0); CallReadOwn (mkItemPointer 1 0);
            CallRead (mkItemPointer 1 1)] a_fresh_context).
  - repeat constructor.
  - intros s. unfold GetRWType. simpl. by rewrite lookup_empty.
Defined.

(** X10: inserting a slot without a mode and deleting it again is a round
    trip for the bookkeeping: both calls complete, the delete returns
    true, the insert count (a 64-bit value) and the written flag are
    back to what they were, the slot is [INS_DEL] and every other entry
    is as before. *)
Theorem insert_then_delete_restores_count (s : ItemPointer)
    (c : TransactionContext) :
  GetRWType s c = INVALID ->
  - 2 ^ 63 <= insert_count_ c <= INT64_MAX ->
  exists c1 c2,
    RecordInsert s c = Done tt c1 /\ RecordDelete s c1 = Done true c2 /\
    insert_count_ c2 = insert_count_ c /\ is_written_ c2 = is_written_ c /\
    rw_set_ c2 = <[s := INS_DEL]> (rw_set_ c).
Proof.
  intros E Hn. open_switch. rewrite E. eexists. eexists.
  split; [reflexivity|]. cbv beta.
  rewrite GetRWType_set_insert_count, GetRWType_set_rw, decide_True by done.
  split; [reflexivity|].
  cbn [insert_count_ is_written_ rw_set_ set_insert_count set_rw].
  split; [by apply wrap_i64_inc_dec|]. split; [done|].
  by rewrite insert_insert_eq.
Qed.

Lemma insert_then_delete_restores_count_witness :
  exists c1 c2,
    RecordInsert (mkItemPointer 2 3) after_read_then_update = Done tt c1 /\
    RecordDelete (mkItemPointer 2 3) c1 = Done true c2 /\
    insert_count_ c2 = insert_count_ after_read_then_update /\
    is_written_ c2 = is_written_ after_read_then_update /\
    rw_set_ c2 = <[mkItemPointer 2 3 := INS_DEL]> (rw_set_ after_read_then_update).
Proof.
  apply (insert_then_delete_restores_count (mkItemPointer 2 3)
           after_read_then_update).
  - reflexivity.
  - vm_compute. split; discriminate.
Defined.

(** ** Calls on different slots, and one slot on its own *)

Section SlotFacts.

Implicit Types (c : TransactionContext) (s l : ItemPointer) (m : RWType)
  (k : call) (ks : list call).

Lemma count_step_commute k1 m1 k2 m2 n :
  count_step k2 m2 (count_step k1 m1 n) = count_step k1 m1 (count_step k2 m2 n).
Proof.
  destruct k1, m1; simpl; try reflexivity;
    destruct k2, m2; simpl; try reflexivity;
    rewrite <- ?Z.add_opp_r, !wrap_i64_add; f_equal; lia.
Qed.

Lemma calls_on_cons s k ks :
  calls_on s (k :: ks) =
  if decide (target k = s) then k :: calls_on s ks else calls_on s ks.
Proof. unfold calls_on. by rewrite filter_cons. Qed.

Lemma called_snoc k k' ks :
  called k (ks ++ [k']) = called k ks || bool_decide (k = k').
Proof.
  unfold called. apply eq_true_iff_eq.
  rewrite orb_true_iff, !bool_decide_eq_true, elem_of_app, list_elem_of_singleton.
  done.
Qed.

Lemma called_nil k : called k [] = false.
Proof. unfold called. apply bool_decide_eq_false. apply not_elem_of_nil. Qed.

(** The strongest call so far, one call later. *)
Lemma summary_snoc s k ks m' :
  target k = s ->
  transition k (summary s ks) = Some m' ->
  summary s (ks ++ [k]) = m'.
Proof.
  intros <-. unfold summary. rewrite !called_snoc.
  destruct k as [l|l|l|l|l]; cbn [target];
    repeat (rewrite bool_decide_eq_false_2 by discriminate);
    rewrite bool_decide_eq_true_2 by reflexivity;
    rewrite ?orb_false_r, ?orb_true_r;
    destruct (called (CallInsert l) ks), (called (CallDelete l) ks),
      (called (CallUpdate l) ks), (called (CallReadOwn l) ks),
      (called (CallRead l) ks); simpl; congruence.
Qed.

Lemma summary_snoc_other s k ks :
  target k <> s -> summary s (ks ++ [k]) = summary s ks.
Proof.
  intros Hk. unfold summary. rewrite !called_snoc.
  repeat (rewrite bool_decide_eq_false_2 by (intros <-; by apply Hk)).
  by rewrite !orb_false_r.
Qed.

End SlotFacts.

(** X11: two calls on different slots commute: if they complete in one
    order they complete in the other, and leave the same context. *)
Theorem calls_on_distinct_slots_commute (k1 k2 : call)
    (c c' : TransactionContext) :
  target k1 <> target k2 ->
  completes [k1; k2] c c' ->
  completes [k2; k1] c c'.
Proof.
  intros Hne H.
  apply completes_cons in H as (c1 & Hk1 & H).
  apply completes_cons in H as (c12 & Hk2 & ->%completes_nil).
  pose proof Hk1 as (m1 & T1 & Rw1 & W1 & N1 & S1)%perform_normal.
  pose proof Hk2 as (m2 & T2 & Rw2 & W2 & N2 & S2)%perform_normal.
  pose proof Hk1 as (m1a & _ & Hm1 & _)%perform_Done.
  rewrite (Hm1 (target k2)), decide_False in T2, W2, N2 by done.
  pose proof (perform_step k2 c) as P2. rewrite T2 in P2.
  destruct P2 as (c2 & Hk2' & Hm2 & _).
  pose proof Hk2' as (m2b & T2' & Rw2' & W2' & N2' & S2')%perform_normal.
  pose proof (perform_step k1 c2) as P1.
  rewrite (Hm2 (target k1)), decide_False, T1 in P1 by done.
  destruct P1 as (c21 & Hk1' & _).
  pose proof Hk1' as (m1b & T1' & Rw1' & W1' & N1' & S1')%perform_normal.
  rewrite (Hm2 (target k1)), decide_False in T1', W1', N1' by done.
  assert (c21 = c12) as ->.
  { apply context_eq.
    - unfold same_surroundings in *. intuition congruence.
    - rewrite W1', W2', W2, W1.
      by destruct (is_written_ c), (promotes k1 _), (promotes k2 _).
    - rewrite N1', N2', N2, N1. apply count_step_commute.
    - rewrite Rw1', Rw2', Rw2, Rw1.
      assert (Some m2b = Some m2) as [= ->] by congruence.
      assert (Some m1b = Some m1) as [= ->] by congruence.
      by apply insert_insert_ne. }
  apply completes_cons. exists c2. split; [done|].
  apply completes_cons. exists c12. split; [done | by apply completes_nil].
Qed.

Lemma calls_on_distinct_slots_commute_witness :
  completes [CallInsert (mkItemPointer 2 3); CallUpdate (mkItemPointer 1 0)]
    after_read_then_update
    (members (run [CallUpdate (mkItemPointer 1 0);
                   CallInsert (mkItemPointer 2 3)] after_read_then_update)).
Proof.
  apply (calls_on_distinct_slots_commute
           (CallUpdate (mkItemPointer 1 0)) (CallInsert (mkItemPointer 2 3))
           after_read_then_update).
  - discriminate.
  - vm_compute. reflexivity.
Defined.

(** X12: a run is the product of its slots: it completes exactly when,
    for every slot, the calls on that slot taken alone never reach an
    assertion, and then each slot ends in the mode its own calls lead to. *)
Theorem run_is_per_slot (ks : list call) (c : TransactionContext) :
  (forall c', completes ks c c' ->
     forall s, slot_run (calls_on s ks) (GetRWType s c)
               = Some (GetRWType s c')) /\
  ((forall s, is_Some (slot_run (calls_on s ks) (GetRWType s c))) ->
     exists c', completes ks c c').
Proof.
  split.
  - revert c. induction ks as [|k ks IH]; intros c c' H s.
    + apply completes_nil in H. by subst.
    + apply completes_cons in H as (c1 & Hk & Hks).
      apply perform_Done in Hk as (m' & Ht & Hm & _).
      specialize (IH c1 c' Hks s). rewrite Hm in IH.
      rewrite calls_on_cons.
      destruct (decide (target k = s)) as [<-|]; [|done].
      simpl. by rewrite Ht.
  - revert c. induction ks as [|k ks IH]; intros c H.
    + exists c. by apply completes_nil.
    + pose proof (H (target k)) as Hk.
      rewrite calls_on_cons, decide_True in Hk by done. simpl in Hk.
      pose proof (perform_step k c) as P.
      destruct (transition k (GetRWType (target k) c)) as [m'|] eqn:Et;
        [|by destruct Hk].
      destruct P as (c1 & Hc1 & Hm & _).
      destruct (IH c1) as (c' & Hc').
      { intros s. rewrite Hm. specialize (H s).
        rewrite calls_on_cons in H.
        destruct (decide (target k = s)) as [<-|]; [|done].
        simpl in H. by rewrite Et in H. }
      exists c'. apply completes_cons. by exists c1.
Qed.

(** X13: on a fresh context the mode a completing history leaves at a slot
    is the strongest call made on it, whatever the order of the calls:
    inserted and deleted, inserted, deleted, updated, read-own, read,
    or without a mode when the slot was never targeted. *)
Theorem final_mode_is_strongest_call (c0 c : TransactionContext)
    (ks : list call) (s : ItemPointer) :
  fresh c0 ->
  completes ks c0 c ->
  GetRWType s c = summary s ks.
Proof.
  intros Hf. revert c. induction ks as [|k ks IH] using rev_ind; intros c H.
  - apply completes_nil in H. subst.
    rewrite (fresh_mode _ s Hf). unfold summary. by rewrite !called_nil.
  - apply completes_snoc in H as (c1 & Hks & Hk).
    apply perform_Done in Hk as (m' & Ht & Hm & _).
    rewrite Hm. destruct (decide (target k = s)) as [E|E].
    + symmetry. apply summary_snoc; [done|].
      rewrite <- (IH c1 Hks). by rewrite <- E.
    + rewrite summary_snoc_other by done. by apply IH.
Qed.

Lemma final_mode_is_strongest_call_witness :
  GetRWType (mkItemPointer 2 3) after_mixed_calls
  = summary (mkItemPointer 2 3) mixed_calls.
Proof.
  apply (final_mode_is_strongest_call a_fresh_context after_mixed_calls
           mixed_calls (mkItemPointer 2 3)).
  - exists 1, SERIALIZABLE, 4294967296. left. reflexivity.
  - vm_compute. reflexivity.
Defined.

Example summary_of_mixed_calls :
  summary (mkItemPointer 2 3) mixed_calls = INS_DEL /\
  summary (mkItemPointer 2 4) mixed_calls = INSERT /\
  summary (mkItemPointer 1 0) mixed_calls = DELETE /\
  summary (mkItemPointer 7 7) mixed_calls = INVALID.
Proof. vm_compute. by repeat split. Qed.

(** ** Triggers and identifiers beside the state machine *)

(** Registration in one assignment: the list, allocated if need be,
    with the trigger at its end. *)
Lemma AddOnCommitTrigger_assigns t c :
  AddOnCommitTrigger t c =
  set_on_commit_triggers
    (Some (default [] (on_commit_triggers_ c) ++ [t])) c.
Proof.
  unfold AddOnCommitTrigger.
  destruct (on_commit_triggers_ c) as [ts|] eqn:E; simpl; [|done].
  by rewrite E.
Qed.

Lemma GetRWType_AddOnCommitTrigger s t c :
  GetRWType s (AddOnCommitTrigger t c) = GetRWType s c.
Proof. by rewrite AddOnCommitTrigger_assigns. Qed.

(** X14: registering a trigger and making a [Record*] call commute: the
    call completes or fails as it would have without the registration,
    and the context is the same whichever of the two came first. *)
Theorem trigger_registration_commutes (t : TriggerData) (k : call)
    (c : TransactionContext) :
  perform k (AddOnCommitTrigger t c) =
  match perform k c with
  | Done a c' => Done a (AddOnCommitTrigger t c')
  | Fatal msg c' => Fatal msg (AddOnCommitTrigger t c')
  end.
Proof.
  destruct k as [l|l|l|l|l]; cbn [perform]; open_switch;
    rewrite GetRWType_AddOnCommitTrigger;
    destruct (GetRWType l c); by rewrite !AddOnCommitTrigger_assigns.
Qed.

(** X15: for 64-bit read ids the epoch [Init] derives fits 32 bits, the
    read id lies in the window of 2^32 ids of its epoch, and a later
    read id never gets an earlier epoch. *)
Theorem epoch_bounded_and_monotone (thread_id : Z)
    (isolation : IsolationLevelType) (commit_id : cid_t)
    (c : TransactionContext) (r1 r2 : cid_t) :
  0 <= r1 <= r2 -> r2 < 2 ^ 64 ->
  let e1 := epoch_id_ (Init thread_id isolation r1 commit_id c) in
  let e2 := epoch_id_ (Init thread_id isolation r2 commit_id c) in
  0 <= e1 <= e2 /\ e2 < 2 ^ 32 /\
  e1 * 2 ^ 32 <= r1 < (e1 + 1) * 2 ^ 32.
Proof.
  intros H12 H2. simpl. unfold shr32. rewrite !Z.shiftr_div_pow2 by lia.
  pose proof (Z.div_mod r1 (2 ^ 32)) as D1.
  pose proof (Z.mod_pos_bound r1 (2 ^ 32)) as B1.
  assert (r1 / 2 ^ 32 <= r2 / 2 ^ 32) by (apply Z.div_le_mono; lia).
  assert (0 <= r1 / 2 ^ 32) by (apply Z.div_pos; lia).
  assert (r2 / 2 ^ 32 < 2 ^ 32) by (apply Z.div_lt_upper_bound; lia).
  lia.
Qed.

Lemma epoch_bounded_and_monotone_witness :
  let e1 := epoch_id_ (Init 1 SERIALIZABLE 4294967299 0 default_members) in
  let e2 := epoch_id_ (Init 1 SERIALIZABLE 12884901888 0 default_members) in
  0 <= e1 <= e2 /\ e2 < 2 ^ 32 /\
  e1 * 2 ^ 32 <= 4294967299 < (e1 + 1) * 2 ^ 32.
Proof.
  apply (epoch_bounded_and_monotone 1 SERIALIZABLE 0 default_members
           4294967299 12884901888).
  - lia.
  - lia.
Defined.

Example epoch_examples :
  epoch_id_ (new3 1 SERIALIZABLE 4294967299) = 1 /\
  epoch_id_ (new3 1 SERIALIZABLE 12884901888) = 3 /\
  epoch_id_ (new3 1 SERIALIZABLE 4294967295) = 0.
Proof. vm_compute. by repeat split. Qed.

(** ** The insert plan *)

Section PlanFacts.

Context {DataTable Tuple ProjectInfo : Type}.
Implicit Types (p : InsertPlan DataTable Tuple ProjectInfo) (i : Z).

Lemma int_of_size_small (n : nat) :
  Z.of_nat n < 2 ^ 31 -> int_of_size n = Z.of_nat n.
Proof.
  intros Hn. unfold int_of_size, wrap_i32. rewrite Z.mod_small; lia.
Qed.

Lemma size_of_int_nonneg i : 0 <= i < 2 ^ 64 -> size_of_int i = Z.to_nat i.
Proof. intros Hi. unfold size_of_int. by rewrite Z.mod_small. Qed.

Lemma size_of_int_negative i :
  - 2 ^ 64 <= i < 0 -> size_of_int i = Z.to_nat (2 ^ 64 + i).
Proof.
  intros Hi. unfold size_of_int. f_equal.
  symmetry. apply (Z.mod_unique_pos i (2 ^ 64) (-1)); lia.
Qed.

End PlanFacts.

(** X16: on a plan of fewer than 2^31 tuples, [GetTuple] with an index
    that is not negative never reads outside the vector: it returns the
    pointer stored at that index, and [nullptr] from the size on. *)
Theorem GetTuple_within_bounds {DataTable Tuple ProjectInfo : Type}
    (p : InsertPlan DataTable Tuple ProjectInfo) (i : Z) :
  Z.of_nat (length (tuples_ p)) < 2 ^ 31 ->
  0 <= i < 2 ^ 31 ->
  GetTuple p i = Fetched (default None (tuples_ p !! Z.to_nat i)) /\
  (Z.of_nat (length (tuples_ p)) <= i -> GetTuple p i = Fetched None).
Proof.
  intros Hlen Hi. unfold GetTuple.
  rewrite int_of_size_small, size_of_int_nonneg by lia.
  destruct (Z.geb_spec i (Z.of_nat (length (tuples_ p)))) as [Hge|Hlt].
  - rewrite lookup_ge_None_2 by lia. done.
  - split; [|lia].
    destruct (lookup_lt_is_Some_2 (tuples_ p) (Z.to_nat i)) as [t ->];
      [lia | done].
Qed.

Lemma GetTuple_within_bounds_witness :
  GetTuple (new_with_tuple (DataTable := N) (ProjectInfo := N)
              (Some 7%N) (Some 42%N) 1) 0
  = Fetched (default None
               (tuples_ (new_with_tuple (DataTable := N) (ProjectInfo := N)
                           (Some 7%N) (Some 42%N) 1) !! Z.to_nat 0)) /\
  (Z.of_nat (length (tuples_ (new_with_tuple (DataTable := N)
                                (ProjectInfo := N) (Some 7%N) (Some 42%N) 1)))
     <= 0 ->
   GetTuple (new_with_tuple (DataTable := N) (ProjectInfo := N)
               (Some 7%N) (Some 42%N) 1) 0 = Fetched None).
Proof.
  apply (GetTuple_within_bounds
           (new_with_tuple (DataTable := N) (ProjectInfo := N)
              (Some 7%N) (Some 42%N) 1) 0).
  - reflexivity.
  - lia.
Defined.

(** X17: the bounds check of [GetTuple] compares only against the size:
    with a negative index it does not return [nullptr] but indexes the
    vector outside its range, whatever the plan holds. *)
Theorem GetTuple_negative_index_unguarded {DataTable Tuple ProjectInfo : Type}
    (p : InsertPlan DataTable Tuple ProjectInfo) (i : Z) :
  Z.of_nat (length (tuples_ p)) < 2 ^ 31 ->
  - 2 ^ 31 <= i < 0 ->
  GetTuple p i = OutOfRange.
Proof.
  intros Hlen Hi. unfold GetTuple.
  rewrite int_of_size_small, size_of_int_negative by lia.
  destruct (Z.geb_spec i (Z.of_nat (length (tuples_ p)))) as [Hge|Hlt]; [lia|].
  rewrite lookup_ge_None_2 by lia. done.
Qed.

Lemma GetTuple_negative_index_unguarded_witness :
  GetTuple (new_with_tuple (DataTable := N) (ProjectInfo := N)
              (Some 7%N) (Some 42%N) 1) (-1)
  = OutOfRange.
Proof.
  apply (GetTuple_negative_index_unguarded
           (new_with_tuple (DataTable := N) (ProjectInfo := N)
              (Some 7%N) (Some 42%N) 1) (-1)).
  - reflexivity.
  - lia.
Defined.

(** X18: what the three inline constructors build: the tuple constructor
    holds its tuple at index 0 and nothing after it, the other two hold
    no tuple at all; each keeps the table and the bulk insert count it
    was given, and only the projection constructor holds a projection. *)
Theorem InsertPlan_constructors {DataTable Tuple ProjectInfo : Type}
    (table : option DataTable) (project_info : option ProjectInfo)
    (tuple : option Tuple) (n : oid_t) (i : Z) :
  let p1 : InsertPlan DataTable Tuple ProjectInfo := new_with_table table n in
  let p2 : InsertPlan DataTable Tuple ProjectInfo :=
    new_with_projection table project_info n in
  let p3 : InsertPlan DataTable Tuple ProjectInfo :=
    new_with_tuple table tuple n in
  (GetTuple p3 0 = Fetched tuple) /\
  (0 < i < 2 ^ 31 -> GetTuple p3 i = Fetched None) /\
  (0 <= i < 2 ^ 31 ->
     GetTuple p1 i = Fetched None /\ GetTuple p2 i = Fetched None) /\
  (GetTable p1 = table /\ GetTable p2 = table /\ GetTable p3 = table) /\
  (GetBulkInsertCount p1 = n /\ GetBulkInsertCount p2 = n /\
   GetBulkInsertCount p3 = n) /\
  (GetProjectInfo p1 = None /\ GetProjectInfo p2 = project_info /\
   GetProjectInfo p3 = None).
Proof.
  simpl. split; [reflexivity|].
  split; [|split; [|by repeat split]].
  - intros Hi. unfold GetTuple. simpl.
    rewrite int_of_size_small by (simpl; lia).
    destruct (Z.geb_spec i (Z.of_nat 1)); [done | lia].
  - intros Hi. unfold GetTuple. simpl.
    rewrite int_of_size_small by (simpl; lia).
    destruct (Z.geb_spec i (Z.of_nat 0)); [done | lia].
Qed.

(** ** The order of the calls on one slot *)

Section OrderFacts.

Implicit Types (c : TransactionContext) (s : ItemPointer) (k : call)
  (ks : list call).

(** A slot some call of a completing run targeted has a mode. *)
Lemma targeted_slot_has_mode ks c c' s :
  completes ks c c' -> s ∈ target <$> ks -> GetRWType s c' <> INVALID.
Proof.
  revert c'. induction ks as [|k ks IH] using rev_ind; intros c' H Hs.
  - by apply elem_of_nil in Hs.
  - apply completes_snoc in H as (c1 & Hks & Hk).
    apply perform_Done in Hk as (m' & Ht & Hm & _). rewrite Hm.
    destruct (decide (target k = s)) as [E|E].
    + by eapply transition_valid.
    + apply (IH c1 Hks).
      rewrite fmap_app, elem_of_app in Hs. destruct Hs as [Hs|Hs]; [done|].
      simpl in Hs. apply list_elem_of_singleton in Hs. congruence.
Qed.

(** No completing run targets a slot whose mode is terminal. *)
Lemma terminal_slot_not_targeted ks c c' s :
  completes ks c c' -> terminal_mode (GetRWType s c) = true ->
  s ∉ target <$> ks.
Proof.
  revert c. induction ks as [|k ks IH]; intros c H Ht.
  - apply not_elem_of_nil.
  - apply completes_cons in H as (c1 & Hk & Hks).
    pose proof (terminal_stays _ _ _ _ Hk Ht) as E.
    rewrite fmap_cons. apply not_elem_of_cons. split.
    + intros ->. apply perform_Done in Hk as (m' & Hm' & _).
      destruct k, (GetRWType _ c); simpl in *; discriminate.
    + apply (IH c1 Hks). by rewrite E.
Qed.

End OrderFacts.

(** X19: in a run whose calls all complete, a [RecordDelete] is the last
    call on its slot: nothing after it targets that slot. *)
Theorem nothing_follows_a_delete (pre post : list call) (s : ItemPointer)
    (c c' : TransactionContext) :
  completes (pre ++ CallDelete s :: post) c c' ->
  s ∉ target <$> post.
Proof.
  intros H. apply completes_app in H as (c1 & _ & H).
  apply completes_cons in H as (c2 & Hk & Hpost).
  apply (terminal_slot_not_targeted post c2 c' s Hpost).
  apply perform_Done in Hk as (m' & Ht & Hm & _).
  rewrite Hm, decide_True by done.
  simpl in Ht. destruct (GetRWType s c1); simpl in Ht; try discriminate;
    by injection Ht as <-.
Qed.

Lemma nothing_follows_a_delete_witness :
  mkItemPointer 2 3 ∉
    target <$> [CallDelete (mkItemPointer 1 0)].
Proof.
  apply (nothing_follows_a_delete
           [CallInsert (mkItemPointer 2 3); CallRead (mkItemPointer 1 0);
            CallInsert (mkItemPointer 2 4); CallUpdate (mkItemPointer 2 4)]
           [CallDelete (mkItemPointer 1 0)] (mkItemPointer 2 3)
           a_fresh_context after_mixed_calls).
  vm_compute. reflexivity.
Defined.

(** X20: in a run whose calls all complete, a [RecordInsert] is the first
    call on its slot, and the slot had no mode when the run began. *)
Theorem insert_is_first_call_on_slot (pre post : list call) (s : ItemPointer)
    (c c' : TransactionContext) :
  completes (pre ++ CallInsert s :: post) c c' ->
  (s ∉ target <$> pre) /\ GetRWType s c = INVALID.
Proof.
  intros H. apply completes_app in H as (c1 & Hpre & H).
  apply completes_cons in H as (c2 & Hk & _).
  apply perform_Done in Hk as (m' & Ht & _).
  assert (GetRWType s c1 = INVALID) as E1
    by (simpl in Ht; by destruct (GetRWType s c1)).
  split.
  - intros Hs. by apply (targeted_slot_has_mode pre c c1 s Hpre Hs).
  - pose proof (run_members_ind
                  (fun c c' => mode_le (GetRWType s c) (GetRWType s c') = true))
      as Hle.
    specialize (Hle (fun c0 => mode_le_refl _)).
    assert (mode_le (GetRWType s c) (GetRWType s (members (run pre c))) = true)
      as Hm.
    { apply Hle. intros k c0 c3 c4 (m1 & Ht1 & Hm1 & _)%perform_Done H2.
      eapply mode_le_trans; [|exact H2]. rewrite Hm1.
      destruct (decide (target k = s)) as [<-|]; [|apply mode_le_refl].
      by eapply transition_advances. }
    unfold completes in Hpre. rewrite Hpre in Hm. simpl in Hm.
    rewrite E1 in Hm. by destruct (GetRWType s c).
Qed.

Lemma insert_is_first_call_on_slot_witness :
  (mkItemPointer 2 4 ∉
     target <$> [CallInsert (mkItemPointer 2 3); CallRead (mkItemPointer 1 0)])
  /\ GetRWType (mkItemPointer 2 4) a_fresh_context = INVALID.
Proof.
  apply (insert_is_first_call_on_slot
           [CallInsert (mkItemPointer 2 3); CallRead (mkItemPointer 1 0)]
           [CallUpdate (mkItemPointer 2 4); CallDelete (mkItemPointer 2 3);
            CallDelete (mkItemPointer 1 0)] (mkItemPointer 2 4)
           a_fresh_context after_mixed_calls).
  vm_compute. reflexivity.
Defined.

(** X21: [Init] clears the insert count but keeps the read/write set, so
    on a context initialised again the delete of a slot still recorded
    as [INSERT] completes, returns true and leaves the count at -1. *)
Theorem delete_after_Init_counts_below_zero (thread_id : Z)
    (isolation : IsolationLevelType) (read_id commit_id : cid_t)
    (s : ItemPointer) (c : TransactionContext) :
  GetRWType s c = INSERT ->
  exists c',
    RecordDelete s (Init thread_id isolation read_id commit_id c)
      = Done true c' /\
    insert_count_ c' = -1 /\ GetRWType s c' = INS_DEL.
Proof.
  intros E. open_switch. rewrite GetRWType_Init, E.
  eexists. split; [reflexivity|]. cbv beta.
  rewrite GetRWType_set_insert_count, GetRWType_set_rw, decide_True by done.
  split; [|done]. reflexivity.
Qed.

Lemma delete_after_Init_counts_below_zero_witness :
  exists c',
    RecordDelete (mkItemPointer 2 4)
      (Init 1 SERIALIZABLE 8589934592 0 after_insert_2_4) = Done true c' /\
    insert_count_ c' = -1 /\ GetRWType (mkItemPointer 2 4) c' = INS_DEL.
Proof.
  apply (delete_after_Init_counts_below_zero 1 SERIALIZABLE 8589934592 0
           (mkItemPointer 2 4) after_insert_2_4).
  reflexivity.
Defined.
